(** * The semantic document retrieval store of mission_control_mcp

    A shallow embedding of [utils/rag_utils.py] (class [SimpleRAGStore],
    [create_rag_store], [semantic_search]) and of [tools/rag_search.py]
    ([search_documents], [build_knowledge_base], [multi_query_search],
    [find_similar_documents]), with the properties the specification
    states about them.

    Conventions of the embedding.
    - A Python [str] is a [string]; its characters are the code points
      below 256.
    - A [float] (the float32 of numpy/faiss and the float64 of Python) is
      idealised as an exact rational of [Q]: no overflow, no rounding
      error, no NaN.  Only [round(x, 4)] rounds, and it is modelled on
      the rational value: to the nearest decimal, and to the even one
      at an exact tie.  Python rounds the binary double of the value,
      which at such a tie (the similarity 1/160 = 0.00625, say) lies on
      one side of it; what is stated below of the scores of the code
      leaves the direction at a tie open.  Ties between distances are
      ordered by the sort of the model, and nothing is stated of that
      order either.
    - Exceptions are values of [exn]; a computation returns [Ok] or
      [Raise].  A method that mutates [self] is a function from the
      store before the call to the outcome and the store after it, so
      what a failing call leaves behind can be observed.
    - The sentence-transformer model is opaque: a variable [encode] of a
      section, which may raise.  numpy and faiss are libraries outside
      the repository; the few operations the code calls are modelled in
      the modules [np] and [faiss] after their Python interface. *)

From Stdlib Require Import QArith Qround Lqa.
From stdpp Require Import base decidable option list sorting strings pretty gmap.

Open Scope Z_scope.

(** ** Exceptions and fallible computations *)

Inductive exn : Type :=
  | ValueError (msg : string)
  | AssertionError
  | IndexError (msg : string)
  | EncoderError (msg : string).

(** [str(e)] *)
Definition exn_str (e : exn) : string :=
  match e with
  | ValueError msg => msg
  | AssertionError => ""
  | IndexError msg => msg
  | EncoderError msg => msg
  end.

Inductive result (A : Type) : Type :=
  | Ok (a : A)
  | Raise (e : exn).
Arguments Ok {A} a.
Arguments Raise {A} e.

Global Instance result_ret : MRet result := λ A a, Ok a.
Global Instance result_bind : MBind result := λ A B f m,
  match m with
  | Ok a => f a
  | Raise e => Raise e
  end.

Definition is_Ok {A} (m : result A) : Prop := ∃ a, m = Ok a.
Definition is_ValueError {A} (m : result A) : Prop := ∃ msg, m = Raise (ValueError msg).

(** ** Floats as rationals *)

Global Instance Qle_dec (x y : Q) : Decision (x <= y)%Q :=
  decide (Qnum x * Z.pos (Qden y) ≤ Qnum y * Z.pos (Qden x)).

Definition vector : Type := list Q.

(** [round(x)] on an exact value: nearest integer, ties to even. *)
Definition round_half_even (x : Q) : Z :=
  let f := Qfloor x in
  match (x - inject_Z f ?= 1 # 2)%Q with
  | Lt => f
  | Gt => f + 1
  | Eq => if Z.even f then f else f + 1
  end.

(** [round(x, ndigits)], on the exact value: where the value is an
    exact tie between two decimals the result is the even one, whereas
    Python decides by the binary double. *)
Definition py_round (x : Q) (ndigits : nat) : Q :=
  let p := inject_Z (10 ^ Z.of_nat ndigits) in
  (inject_Z (round_half_even (x * p)) / p)%Q.

(** ** Python lists and strings *)

(** [l[i]]: a negative index counts from the end. *)
Definition py_getitem {A} (l : list A) (i : Z) : result A :=
  let j := if decide (i < 0) then Z.of_nat (length l) + i else i in
  if decide (j < 0) then Raise (IndexError "list index out of range")
  else match l !! Z.to_nat j with
       | Some x => Ok x
       | None => Raise (IndexError "list index out of range")
       end.

(** [c.isspace()] for a code point below 256. *)
Definition isspace (c : Ascii.ascii) : bool :=
  let n := Ascii.nat_of_ascii c in
  ((9 <=? n) && (n <=? 13) || (28 <=? n) && (n <=? 32) || (n =? 133) || (n =? 160))%nat.

Fixpoint lstrip (s : string) : string :=
  match s with
  | EmptyString => EmptyString
  | String c s' => if isspace c then lstrip s' else s
  end.

Definition rstrip (s : string) : string :=
  String.rev (lstrip (String.rev s)).

(** [s.strip()] *)
Definition strip (s : string) : string := rstrip (lstrip s).

(** [not s] *)
Definition str_falsy (s : string) : bool :=
  match s with EmptyString => true | _ => false end.

(** [s[:n]] *)
Definition str_prefix (n : nat) (s : string) : string := String.substring 0 n s.

(** ** numpy *)

Module np.

(** An array of rank one or two: its shape and its rows. *)
Record ndarray : Type := mk_ndarray { shape : list nat; rows : list vector }.

(** [np.array(l).astype('float32')] for a list of vectors: the empty
    list gives shape (0,), equal lengths give shape (n, d), and rows
    of different lengths are refused. *)
Definition array (l : list vector) : result ndarray :=
  match l with
  | [] => Ok (mk_ndarray [0%nat] [])
  | v :: _ =>
      if forallb (λ w, (length w =? length v)%nat) l
      then Ok (mk_ndarray [length l; length v] l)
      else Raise (ValueError "setting an array element with a sequence.")
  end.

(** [a.shape[i]] *)
Definition shape_at (a : ndarray) (i : nat) : result nat :=
  match shape a !! i with
  | Some n => Ok n
  | None => Raise (IndexError "tuple index out of range")
  end.

(** [n, d = a.shape] *)
Definition unpack_shape (a : ndarray) : result (nat * nat) :=
  match shape a with
  | [n; d] => Ok (n, d)
  | _ => Raise (ValueError "not enough values to unpack (expected 2, got 1)")
  end.

End np.

(** ** faiss.IndexFlatL2 *)

Module faiss.

(** The largest float32, which faiss reports as the distance of a
    missing neighbour. *)
Definition FLT_MAX : Q := 340282346638528859811704183484516925440 # 1.

(** The flat index: its dimension [d] and the stored vectors [xb], in
    insertion order; [ntotal] is their number. *)
Record IndexFlatL2 : Type := mk_index { d : nat; xb : list vector }.

Definition new (dimension : nat) : IndexFlatL2 := mk_index dimension [].

Definition ntotal (ix : IndexFlatL2) : nat := length (xb ix).

(** [index.add(x)] *)
Definition add (ix : IndexFlatL2) (x : np.ndarray) : result IndexFlatL2 :=
  '(n, dx) ← np.unpack_shape x;
  if decide (dx = d ix) then Ok (mk_index (d ix) (xb ix ++ np.rows x))
  else Raise AssertionError.

(** Squared Euclidean distance, in exact arithmetic: the rounding and
    the overflow of float32 are not modelled. *)
Definition fvec_L2sqr (x y : vector) : Q :=
  foldr Qplus 0%Q (zip_with (λ a b, (a - b) * (a - b))%Q x y).

Definition nearer (a b : Q * Z) : Prop := (a.1 <= b.1)%Q.

Global Instance nearer_dec a b : Decision (nearer a b) := Qle_dec a.1 b.1.

(** The [k] nearest stored vectors of one query vector, nearest first,
    as (distance, label) pairs; when fewer than [k] vectors are stored
    the tail is filled with label -1 at distance [FLT_MAX]. *)
Definition knn (ix : IndexFlatL2) (x : vector) (k : nat) : list (Q * Z) :=
  let scored := imap (λ i y, (fvec_L2sqr x y, Z.of_nat i)) (xb ix) in
  let best := take k (merge_sort nearer scored) in
  best ++ replicate (k - length best) (FLT_MAX, -1).

(** [D, I = index.search(x, k)] *)
Definition search (ix : IndexFlatL2) (x : np.ndarray) (k : Z)
  : result (list (list Q) * list (list Z)) :=
  '(n, dx) ← np.unpack_shape x;
  if decide (dx = d ix) then
    if decide (0 < k) then
      let found := map (λ q, knn ix q (Z.to_nat k)) (np.rows x) in
      Ok (map (map fst) found, map (map snd) found)
    else Raise AssertionError
  else Raise AssertionError.

End faiss.

(** ** utils/rag_utils.py *)

(** The fields of a [SimpleRAGStore] that its clients can observe.  The
    lazily loaded model handle [_model] is part of [encode] below. *)
Record SimpleRAGStore : Type := mk_store {
  documents : list string;
  embeddings : list vector;
  index : option faiss.IndexFlatL2
}.

(** One entry of the list [search] returns. *)
Record QueryResult : Type := mk_result {
  rank : nat;
  document : string;
  score : Q;
  distance : Q
}.

(** A method body: it runs on [self], returns or raises, and leaves the
    store as its assignments made it up to that point. *)
Definition method (A : Type) : Type := SimpleRAGStore → result A * SimpleRAGStore.

Global Instance method_ret : MRet method := λ A a self, (Ok a, self).
Global Instance method_bind : MBind method := λ A B f m self,
  match m self with
  | (Ok a, self') => f a self'
  | (Raise e, self') => (Raise e, self')
  end.

Definition get_self : method SimpleRAGStore := λ self, (Ok self, self).
Definition set_self (f : SimpleRAGStore → SimpleRAGStore) : method unit :=
  λ self, (Ok (), f self).
Definition lift {A} (m : result A) : method A := λ self, (m, self).

(** [SimpleRAGStore()] *)
Definition new_store : SimpleRAGStore := mk_store [] [] None.

(** [1.0 / (1.0 + distance)]: the similarity before it is rounded. *)
Definition similarity (distance : Q) : Q := (1 / (1 + distance))%Q.

(** The loop of [search] over [enumerate(zip(distances[0], indices[0]))],
    from position [i] on. *)
Fixpoint format_results (docs : list string) (i : nat) (hits : list (Q * Z))
  : result (list QueryResult) :=
  match hits with
  | [] => Ok []
  | (dist, idx) :: hits' =>
      if decide (idx < Z.of_nat (length docs)) then
        doc ← py_getitem docs idx;
        results ← format_results docs (S i) hits';
        Ok (mk_result (i + 1) doc (py_round (similarity dist) 4) dist :: results)
      else format_results docs (S i) hits'
  end.

Section Store.

(** [self._get_model().encode(texts, show_progress_bar=False)]: one
    vector per text, or the exception raised while loading or running
    the model. *)
Variable encode : list string → result (list vector).

(** [SimpleRAGStore.add_documents] *)
Definition add_documents (docs : list string) : method unit :=
  if bool_decide (docs = []) then mret ()
  else
    set_self (λ self, mk_store (documents self ++ docs) (embeddings self) (index self));;
    new_embeddings ← lift (encode docs);
    set_self (λ self,
      mk_store (documents self) (embeddings self ++ new_embeddings) (index self));;
    self ← get_self;
    embeddings_array ← lift (np.array (embeddings self));
    dimension ← lift (np.shape_at embeddings_array 1);
    ix ← match index self with
         | None =>
             let ix := faiss.new dimension in
             set_self (λ self,
               mk_store (documents self) (embeddings self) (Some ix));;
             mret ix
         | Some ix => mret ix
         end;
    ix' ← lift (faiss.add ix embeddings_array);
    set_self (λ self, mk_store (documents self) (embeddings self) (Some ix')).

(** [SimpleRAGStore.search]; it assigns no field of [self]. *)
Definition search (self : SimpleRAGStore) (query : string) (top_k : Z)
  : result (list QueryResult) :=
  match index self with
  | None => Ok []
  | Some ix =>
      if decide (length (documents self) = 0%nat) then Ok []
      else
        query_embedding ← encode [query];
        query_embedding ← np.array query_embedding;
        let top_k := Z.min top_k (Z.of_nat (length (documents self))) in
        '(distances, indices) ← faiss.search ix query_embedding top_k;
        distances0 ← py_getitem distances 0;
        indices0 ← py_getitem indices 0;
        format_results (documents self) 0 (zip distances0 indices0)
  end.

(** [SimpleRAGStore.clear] *)
Definition clear : method unit := set_self (λ _, mk_store [] [] None).

(** [create_rag_store]: the outcome, and the store it built. *)
Definition create_rag_store (docs : list string) : result SimpleRAGStore :=
  let store := new_store in
  if bool_decide (docs = []) then Ok store
  else match add_documents docs store with
       | (Ok _, store') => Ok store'
       | (Raise e, _) => Raise e
       end.

(** [semantic_search] *)
Definition semantic_search (query : string) (docs : list string) (top_k : Z)
  : result (list QueryResult) :=
  store ← create_rag_store docs;
  search store query top_k.

End Store.

(** ** tools/rag_search.py *)

(** The dictionary [search_documents] returns. *)
Record SearchResponse : Type := mk_search_response {
  query : string;
  total_documents : nat;
  returned_results : nat;
  results : list QueryResult
}.

(** The dictionary [build_knowledge_base] returns. *)
Record KnowledgeBase : Type := mk_knowledge_base {
  success : bool;
  document_count : nat;
  message : string;
  store : SimpleRAGStore
}.

(** One value of the [results] dictionary of [multi_query_search]; the
    key ["error"] is present in the entry of a query that raised. *)
Record QueryEntry : Type := mk_entry {
  entry_query : string;
  entry_error : option string;
  entry_results : list QueryResult
}.

(** The dictionary [multi_query_search] returns. *)
Record BatchResponse : Type := mk_batch_response {
  total_queries : nat;
  batch_total_documents : nat;
  batch_results : gmap string QueryEntry
}.

(** The dictionary [find_similar_documents] returns. *)
Record SimilarResponse : Type := mk_similar_response {
  target_document : string;
  corpus_size : nat;
  similar_documents : list QueryResult
}.

(** [f"query_{idx+1}"] *)
Definition query_key (idx : nat) : string := "query_" +:+ pretty (idx + 1)%nat.

Section Tools.

Variable encode : list string → result (list vector).

(** [search_documents] *)
Definition search_documents (q : string) (docs : list string) (top_k : Z)
  : result SearchResponse :=
  if str_falsy q || str_falsy (strip q)
  then Raise (ValueError "Query cannot be empty")
  else if bool_decide (docs = []) || bool_decide (length docs = 0%nat)
  then Raise (ValueError "Documents list cannot be empty")
  else
    rs ← semantic_search encode q docs top_k;
    Ok (mk_search_response q (length docs) (length rs) rs).

(** [build_knowledge_base] *)
Definition build_knowledge_base (docs : list string) : result KnowledgeBase :=
  if bool_decide (docs = [])
  then Raise (ValueError "Documents list cannot be empty")
  else
    st ← create_rag_store encode docs;
    Ok (mk_knowledge_base true (length docs) "Knowledge base built successfully" st).

(** The body of the loop of [multi_query_search] for the query at
    position [idx]: the entry stored under [query_key idx]. *)
Definition query_entry (st : SimpleRAGStore) (top_k : Z) (q : string) : QueryEntry :=
  match search encode st q top_k with
  | Ok rs => mk_entry q None rs
  | Raise e => mk_entry q (Some (exn_str e)) []
  end.

(** The loop of [multi_query_search] from position [idx] on, updating
    the dictionary [all_results]. *)
Fixpoint run_queries (st : SimpleRAGStore) (top_k : Z) (idx : nat)
    (queries : list string) (all_results : gmap string QueryEntry)
  : gmap string QueryEntry :=
  match queries with
  | [] => all_results
  | q :: queries' =>
      run_queries st top_k (S idx) queries'
        (<[query_key idx := query_entry st top_k q]> all_results)
  end.

(** [multi_query_search] *)
Definition multi_query_search (queries docs : list string) (top_k : Z)
  : result BatchResponse :=
  if bool_decide (queries = []) || bool_decide (docs = [])
  then Raise (ValueError "Both queries and documents must be provided")
  else
    st ← create_rag_store encode docs;
    let all_results := run_queries st top_k 0 queries ∅ in
    Ok (mk_batch_response (length queries) (length docs) all_results).

(** [find_similar_documents] *)
Definition find_similar_documents (target_doc : string) (docs : list string) (top_k : Z)
  : result SimilarResponse :=
  if str_falsy target_doc || bool_decide (docs = [])
  then Raise (ValueError "Target document and documents list must be provided")
  else
    rs ← semantic_search encode target_doc docs top_k;
    Ok (mk_similar_response
          (if decide (200 < String.length target_doc)%nat
           then str_prefix 200 target_doc +:+ "..."
           else target_doc)
          (length docs) rs).

End Tools.

(** ** Encoders to run the code on *)

(** A one-dimensional encoder: a text becomes its length times [scale]. *)
Definition length_encoder (scale : Z) (texts : list string) : result (list vector) :=
  Ok (map (λ s, [inject_Z (scale * Z.of_nat (String.length s))]) texts).

(** An encoder whose dimension varies: a text of n characters becomes
    the zero vector of dimension n. *)
Definition ragged_encoder (texts : list string) : result (list vector) :=
  Ok (map (λ s, replicate (String.length s) 0%Q) texts).

(** An encoder that is unavailable. *)
Definition failing_encoder (texts : list string) : result (list vector) :=
  Raise (EncoderError "model unavailable").

(** An encoder that refuses a batch holding an empty text. *)
Definition picky_encoder (texts : list string) : result (list vector) :=
  if existsb str_falsy texts then Raise (EncoderError "empty text")
  else length_encoder 1 texts.

(** * Vocabulary of the specification *)

(** Invariant I1 of the specification. *)
Definition index_size (s : SimpleRAGStore) : nat :=
  match index s with
  | None => 0
  | Some ix => faiss.ntotal ix
  end.

Definition I1 (s : SimpleRAGStore) : Prop :=
  length (documents s) = length (embeddings s) ∧ length (embeddings s) = index_size s.

(** The store has an index of dimension [D] and every stored embedding
    has that dimension. *)
Definition established_dimension (s : SimpleRAGStore) (D : nat) : Prop :=
  ∃ ix, index s = Some ix ∧ faiss.d ix = D ∧
        embeddings s ≠ [] ∧ Forall (λ v, length v = D) (embeddings s).

(** A batch of embeddings of dimension [D]. *)
Definition batch_dimension (vs : list vector) (D : nat) : Prop :=
  vs ≠ [] ∧ Forall (λ v, length v = D) vs.

(** What the index holds about one stored vector: its distance to the
    query and its position. *)
Definition scored (ix : faiss.IndexFlatL2) (x : vector) : list (Q * Z) :=
  imap (λ i y, (faiss.fvec_L2sqr x y, Z.of_nat i)) (faiss.xb ix).

(** A hit that names a stored vector. *)
Definition stored_hit (ix : faiss.IndexFlatL2) (h : Q * Z) : Prop :=
  (0 <= h.1)%Q ∧ 0 ≤ h.2 < Z.of_nat (faiss.ntotal ix).

(** A hit as [knn] returns them: a stored vector or the filler. *)
Definition knn_hit (ix : faiss.IndexFlatL2) (h : Q * Z) : Prop :=
  (0 <= h.1)%Q ∧ -1 ≤ h.2 < Z.of_nat (faiss.ntotal ix).


(** The contract of the embedding model (section 4.1 of the
    specification): it never fails and returns one vector of dimension
    [D] per text. *)
Definition well_behaved (encode : list string → result (list vector)) (D : nat) : Prop :=
  ∀ texts, ∃ vs, encode texts = Ok vs ∧ length vs = length texts ∧
                 Forall (λ v, length v = D) vs.

(** The two orders of a ranked result list. *)
Definition by_distance (a b : QueryResult) : Prop := (distance a <= distance b)%Q.
Definition by_score (a b : QueryResult) : Prop := (score b <= score a)%Q.

(** A query [search_documents] refuses: it is empty or holds white
    space only. *)
Definition blank (q : string) : Prop := strip q = "".

(** An encoder that embeds each text on its own, by [f], into
    dimension [D]. *)
Definition pointwise (encode : list string → result (list vector))
    (f : string → vector) (D : nat) : Prop :=
  (∀ texts, encode texts = Ok (f <$> texts)) ∧ ∀ t, length (f t) = D.

(** * Vocabulary of the further properties *)

(** What holds of a store as long as every batch was embedded into
    dimension [D]: documents and embeddings go in lockstep, every
    embedding has dimension [D], and the index, once there, has that
    dimension and holds at least one vector per document. *)
Definition store_inv (D : nat) (s : SimpleRAGStore) : Prop :=
  length (documents s) = length (embeddings s) ∧
  Forall (λ v, length v = D) (embeddings s) ∧
  match index s with
  | None => embeddings s = []
  | Some ix =>
      faiss.d ix = D ∧ embeddings s ≠ [] ∧
      (length (embeddings s) ≤ faiss.ntotal ix)%nat
  end.

(** The stores a client can bring about from [SimpleRAGStore()] by
    calls of [add_documents], returning or raising, and of [clear]. *)
Inductive reachable (encode : list string → result (list vector))
  : SimpleRAGStore → Prop :=
  | reach_new : reachable encode new_store
  | reach_add s docs r s' :
      reachable encode s → add_documents encode docs s = (r, s') →
      reachable encode s'
  | reach_clear s r s' :
      reachable encode s → clear s = (r, s') → reachable encode s'.

(** Every character of the string is white space. *)
Fixpoint all_space (s : string) : bool :=
  match s with
  | EmptyString => true
  | String c s' => isspace c && all_space s'
  end.

(** A result made from the filler of the index. *)
Definition filler_result (docs : list string) (r : QueryResult) : Prop :=
  last docs = Some (document r) ∧ distance r = faiss.FLT_MAX ∧ (score r == 0)%Q.
(** * Properties *)

(** ** What [add_documents] leaves behind *)

Lemma array_uniform (vs : list vector) (D : nat) :
  batch_dimension vs D → np.array vs = Ok (np.mk_ndarray [length vs; D] vs).
Proof.
  intros [Hne Hall]. destruct vs as [|v vs]; [done|].
  unfold np.array. pose proof (Forall_inv Hall) as Hv. simpl in Hv.
  replace (forallb _ _) with true; [by rewrite Hv|].
  symmetry. apply forallb_forall. intros w Hw.
  apply Nat.eqb_eq. rewrite Forall_forall in Hall.
  rewrite Hv. apply Hall. by apply list_elem_of_In.
Qed.

Lemma array_ragged (vs : list vector) (v w : vector) :
  vs !! 0%nat = Some v → w ∈ vs → length w ≠ length v →
  np.array vs = Raise (ValueError "setting an array element with a sequence.").
Proof.
  intros Hhd Hw Hlen. destruct vs as [|v' vs]; [done|].
  injection Hhd as ->. unfold np.array.
  replace (forallb _ (v :: vs)) with false; [done|].
  symmetry. apply not_true_is_false. intros Hall.
  rewrite forallb_forall in Hall.
  apply Hlen, Nat.eqb_eq, Hall. by apply list_elem_of_In.
Qed.

Lemma array_Ok_shape (vs : list vector) (a : np.ndarray) (dim : nat) :
  np.array vs = Ok a → np.shape_at a 1 = Ok dim →
  np.shape a = [length vs; dim] ∧ np.rows a = vs.
Proof.
  unfold np.array. destruct vs as [|v vs]; [by intros [= <-]|].
  case_match; [|done]. intros [= <-]. unfold np.shape_at. simpl.
  by intros [= <-].
Qed.

Lemma faiss_add_same_dim (ix : faiss.IndexFlatL2) (a : np.ndarray) (n : nat) :
  np.shape a = [n; faiss.d ix] →
  faiss.add ix a = Ok (faiss.mk_index (faiss.d ix) (faiss.xb ix ++ np.rows a)).
Proof.
  intros Hs. unfold faiss.add, np.unpack_shape. rewrite Hs. simpl.
  by rewrite decide_True.
Qed.

(** [add_documents] on a batch that is not empty, statement by statement. *)
Lemma add_documents_steps encode docs s :
  docs ≠ [] →
  add_documents encode docs s =
    let s1 := mk_store (documents s ++ docs) (embeddings s) (index s) in
    match encode docs with
    | Raise e => (Raise e, s1)
    | Ok vs =>
        let s2 := mk_store (documents s ++ docs) (embeddings s ++ vs) (index s) in
        match np.array (embeddings s ++ vs) with
        | Raise e => (Raise e, s2)
        | Ok a =>
            match np.shape_at a 1 with
            | Raise e => (Raise e, s2)
            | Ok dim =>
                let ix := default (faiss.new dim) (index s) in
                let s3 := mk_store (documents s ++ docs) (embeddings s ++ vs) (Some ix) in
                match faiss.add ix a with
                | Raise e => (Raise e, s3)
                | Ok ix' =>
                    (Ok (), mk_store (documents s ++ docs) (embeddings s ++ vs) (Some ix'))
                end
            end
        end
    end.
Proof.
  intros Hne. unfold add_documents. rewrite bool_decide_false by done.
  unfold mbind, method_bind, set_self, lift, get_self, mret, method_ret. simpl.
  destruct (encode docs) as [vs|e]; [|done]. simpl.
  destruct (np.array _) as [a|e]; [|done]. simpl.
  destruct (np.shape_at a 1) as [dim|e]; [|done]. simpl.
  destruct (index s) as [ix|]; simpl; by destruct (faiss.add _ a).
Qed.

(** C9: adding the empty list of documents raises nothing and leaves
    the documents, the embeddings and the index of the store as they
    were, whatever the store and the encoder. *)
Theorem add_documents_empty_noop (encode : list string → result (list vector))
    (s : SimpleRAGStore) :
  add_documents encode [] s = (Ok (), s).
Proof. reflexivity. Qed.

(** C1, as the specification states it, fails: with the model
    unavailable, adding one document to the empty store raises and
    leaves that document in the corpus. *)
Lemma add_documents_not_atomic :
  ¬ (∀ (encode : list string → result (list vector)) (s s' : SimpleRAGStore)
       (docs : list string) (e : exn),
       add_documents encode docs s = (Raise e, s') → s' = s).
Proof.
  intros Hatomic.
  specialize (Hatomic failing_encoder new_store (mk_store ["a"] [] None) ["a"]
                (EncoderError "model unavailable") eq_refl).
  discriminate Hatomic.
Qed.

(** C1, amended: a failing [add_documents] never changes the index, but
    the batch has already been appended to the documents; the embeddings
    are untouched when the encoder is what raised, and have grown by the
    new vectors when a later step raised. *)
Theorem add_documents_failure_footprint (encode : list string → result (list vector))
    (s s' : SimpleRAGStore) (docs : list string) (e : exn) :
  add_documents encode docs s = (Raise e, s') →
  index s' = index s ∧
  documents s' = documents s ++ docs ∧
  ((encode docs = Raise e ∧ embeddings s' = embeddings s) ∨
   (∃ vs, encode docs = Ok vs ∧ embeddings s' = embeddings s ++ vs)).
Proof.
  destruct (decide (docs = [])) as [->|Hne]; [done|].
  rewrite add_documents_steps by done. cbv zeta.
  destruct (encode docs) as [vs|e0] eqn:Henc.
  2:{ intros [= -> <-]. simpl. auto. }
  destruct (np.array _) as [a|e0] eqn:Harr.
  2:{ intros [= -> <-]. simpl. naive_solver. }
  destruct (np.shape_at a 1) as [dim|e0] eqn:Hdim.
  2:{ intros [= -> <-]. simpl. naive_solver. }
  destruct (array_Ok_shape _ _ _ Harr Hdim) as [Hshape Hrows].
  destruct (index s) as [ix|] eqn:Hix; simpl.
  - destruct (faiss.add ix a); intros [= <- <-]. simpl. naive_solver.
  - rewrite (faiss_add_same_dim (faiss.new dim) a (length (embeddings s ++ vs)))
      by done.
    done.
Qed.

Lemma add_documents_failure_footprint_witness :
  add_documents failing_encoder ["a"] new_store
    = (Raise (EncoderError "model unavailable"), mk_store ["a"] [] None) ∧
  documents (mk_store ["a"] [] None) = documents new_store ++ ["a"].
Proof.
  split; [reflexivity|].
  exact (proj1 (proj2 (add_documents_failure_footprint failing_encoder new_store
                         (mk_store ["a"] [] None) ["a"]
                         (EncoderError "model unavailable") eq_refl))).
Defined.

(** C5, as the specification states it, fails: a store of dimension 1
    that receives a batch of dimension 2 raises, but its corpus has
    grown from one document to two. *)
Lemma dimension_mismatch_mutates :
  ¬ (∀ (encode : list string → result (list vector)) (s : SimpleRAGStore)
       (docs : list string) (vs : list vector) (D D' : nat),
       established_dimension s D → docs ≠ [] → encode docs = Ok vs →
       batch_dimension vs D' → D' ≠ D →
       ∃ e s', add_documents encode docs s = (Raise e, s') ∧
               length (documents s') = length (documents s)).
Proof.
  intros Hclaim.
  pose (s := mk_store ["a"] [[0%Q]] (Some (faiss.mk_index 1 [[0%Q]]))).
  destruct (Hclaim ragged_encoder s ["bb"] [[0%Q; 0%Q]] 1%nat 2%nat)
    as (e & s' & Hrun & Hlen).
  - exists (faiss.mk_index 1 [[0%Q]]). repeat split; [done|]. by repeat constructor.
  - done.
  - reflexivity.
  - split; [done|]. by repeat constructor.
  - done.
  - vm_compute in Hrun. injection Hrun as _ <-. discriminate Hlen.
Qed.

(** C5, amended: on a store of established dimension [D], a batch that
    embeds to another dimension makes [add_documents] raise the
    [ValueError] of the array construction; the index is left as it
    was, while both the documents and the embeddings have been extended
    by the batch. *)
Theorem add_documents_dimension_mismatch (encode : list string → result (list vector))
    (s : SimpleRAGStore) (docs : list string) (vs : list vector) (D D' : nat) :
  established_dimension s D → docs ≠ [] → encode docs = Ok vs →
  batch_dimension vs D' → D' ≠ D →
  add_documents encode docs s =
    (Raise (ValueError "setting an array element with a sequence."),
     mk_store (documents s ++ docs) (embeddings s ++ vs) (index s)).
Proof.
  intros (ix & Hix & Hd & Hne & Hall) Hdocs Henc [Hvs Hbatch] Hdiff.
  rewrite add_documents_steps by done. cbv zeta. rewrite Henc.
  destruct (embeddings s) as [|v old] eqn:Hemb; [done|].
  destruct vs as [|w vs]; [done|].
  rewrite (array_ragged ((v :: old) ++ w :: vs) v w); [done|done| |].
  - apply elem_of_app. right. left.
  - rewrite (Forall_inv Hall), (Forall_inv Hbatch). done.
Qed.

Lemma add_documents_dimension_mismatch_witness :
  add_documents ragged_encoder ["bb"]
      (mk_store ["a"] [[0%Q]] (Some (faiss.mk_index 1 [[0%Q]]))) =
    (Raise (ValueError "setting an array element with a sequence."),
     mk_store ["a"; "bb"] [[0%Q]; [0%Q; 0%Q]] (Some (faiss.mk_index 1 [[0%Q]]))).
Proof.
  apply (add_documents_dimension_mismatch ragged_encoder
           (mk_store ["a"] [[0%Q]] (Some (faiss.mk_index 1 [[0%Q]])))
           ["bb"] [[0%Q; 0%Q]] 1%nat 2%nat).
  - exists (faiss.mk_index 1 [[0%Q]]). repeat split; [done|]. by repeat constructor.
  - done.
  - reflexivity.
  - split; [done|]. by repeat constructor.
  - done.
Defined.

(** ** The score transform *)

Lemma similarity_range (dist : Q) : (0 <= dist → 0 < similarity dist <= 1)%Q.
Proof.
  intros Hd. unfold similarity. split.
  - apply Qlt_shift_div_l; lra.
  - apply Qle_shift_div_r; lra.
Qed.

Lemma similarity_decreasing (d1 d2 : Q) :
  (0 <= d1 → d1 < d2 → similarity d2 < similarity d1)%Q.
Proof.
  intros H1 H12. unfold similarity.
  apply Qlt_shift_div_r; [lra|].
  assert (1 / (1 + d1) * (1 + d1) == 1)%Q as Hinv by (field; lra).
  assert (0 < 1 / (1 + d1))%Q as Hpos by (apply Qlt_shift_div_l; lra).
  nra.
Qed.

Lemma similarity_antitone (d1 d2 : Q) :
  (0 <= d1 → d1 <= d2 → similarity d2 <= similarity d1)%Q.
Proof.
  intros H1 H12. destruct (Qlt_le_dec d1 d2) as [Hlt|Hge].
  - apply Qlt_le_weak. by apply similarity_decreasing.
  - assert (d1 == d2)%Q as Heq by lra. unfold similarity. rewrite Heq. lra.
Qed.

Lemma similarity_zero : (similarity 0 == 1)%Q.
Proof. reflexivity. Qed.

Lemma round_half_even_between (x : Q) :
  Qfloor x ≤ round_half_even x ≤ Qfloor x + 1.
Proof.
  unfold round_half_even. destruct (_ ?= _)%Q; [destruct (Z.even _)|..]; lia.
Qed.

Lemma round_half_even_monotone (x y : Q) :
  (x <= y)%Q → round_half_even x ≤ round_half_even y.
Proof.
  intros Hxy. pose proof (Qfloor_resp_le x y Hxy) as Hfl.
  destruct (decide (Qfloor x = Qfloor y)) as [Heq|Hne].
  - unfold round_half_even. rewrite <- Heq.
    destruct (Qcompare_spec (x - inject_Z (Qfloor x)) (1 # 2)) as [Hx|Hx|Hx];
      destruct (Qcompare_spec (y - inject_Z (Qfloor x)) (1 # 2)) as [Hy|Hy|Hy];
      try destruct (Z.even (Qfloor x)); try lia; lra.
  - pose proof (round_half_even_between x). pose proof (round_half_even_between y). lia.
Qed.

Lemma round_half_even_Z (n : Z) : round_half_even (inject_Z n) = n.
Proof.
  unfold round_half_even. rewrite Qfloor_Z.
  destruct (Qcompare_spec (inject_Z n - inject_Z n) (1 # 2)) as [H|H|H]; [lra|done|lra].
Qed.

Lemma py_round_monotone (x y : Q) (ndigits : nat) :
  (x <= y → py_round x ndigits <= py_round y ndigits)%Q.
Proof.
  intros Hxy. unfold py_round.
  assert (0 < 10 ^ Z.of_nat ndigits) as Hp by (apply Z.pow_pos_nonneg; lia).
  assert (0 < inject_Z (10 ^ Z.of_nat ndigits))%Q as HpQ
    by (change 0%Q with (inject_Z 0); by rewrite <- Zlt_Qlt).
  unfold Qdiv. apply Qmult_le_compat_r; [|apply Qlt_le_weak; by apply Qinv_lt_0_compat].
  rewrite <- Zle_Qle. apply round_half_even_monotone.
  apply Qmult_le_compat_r; [done|lra].
Qed.

Lemma py_round_unit_interval (x : Q) : (0 <= x <= 1 → 0 <= py_round x 4 <= 1)%Q.
Proof.
  intros [H0 H1]. split.
  - assert (py_round 0 4 == 0)%Q as <- by reflexivity. by apply py_round_monotone.
  - assert (py_round 1 4 == 1)%Q as <- by reflexivity. by apply py_round_monotone.
Qed.

(** ** The flat index *)

Global Instance nearer_total : Total faiss.nearer.
Proof.
  intros a b. unfold faiss.nearer.
  destruct (Qlt_le_dec a.1 b.1); [left; by apply Qlt_le_weak|by right].
Qed.

Global Instance nearer_trans : Transitive faiss.nearer.
Proof. intros a b c. unfold faiss.nearer. apply Qle_trans. Qed.

Lemma Qsquare_nonneg (c : Q) : (0 <= c * c)%Q.
Proof.
  destruct (Qlt_le_dec c 0) as [Hneg|Hpos].
  - assert (c * c == (- c) * (- c))%Q as -> by ring.
    apply Qmult_le_0_compat; lra.
  - by apply Qmult_le_0_compat.
Qed.

Lemma fvec_L2sqr_nonneg (x y : vector) : (0 <= faiss.fvec_L2sqr x y)%Q.
Proof.
  unfold faiss.fvec_L2sqr. revert y.
  induction x as [|a x IH]; intros [|b y]; simpl; try lra.
  specialize (IH y). pose proof (Qsquare_nonneg (a - b)) as Hsq. lra.
Qed.

Lemma fvec_L2sqr_self (x : vector) : (faiss.fvec_L2sqr x x == 0)%Q.
Proof.
  unfold faiss.fvec_L2sqr. induction x as [|a x IH]; simpl; [lra|].
  rewrite IH. ring.
Qed.

Lemma scored_stored (ix : faiss.IndexFlatL2) (x : vector) :
  Forall (stored_hit ix) (scored ix x).
Proof.
  apply Forall_forall. intros h Hh.
  apply elem_of_lookup_imap in Hh as (i & y & -> & Hy).
  split; simpl; [apply fvec_L2sqr_nonneg|].
  apply lookup_lt_Some in Hy. unfold faiss.ntotal. lia.
Qed.

Lemma sorted_scored_stored (ix : faiss.IndexFlatL2) (x : vector) :
  Forall (stored_hit ix) (merge_sort faiss.nearer (scored ix x)).
Proof.
  rewrite merge_sort_Permutation. apply scored_stored.
Qed.

Lemma knn_within (ix : faiss.IndexFlatL2) (x : vector) (k : nat) :
  (k ≤ faiss.ntotal ix)%nat →
  faiss.knn ix x k = take k (merge_sort faiss.nearer (scored ix x)).
Proof.
  intros Hk. unfold faiss.knn. fold (scored ix x).
  assert (length (merge_sort faiss.nearer (scored ix x)) = faiss.ntotal ix) as Hlen.
  { rewrite merge_sort_Permutation. apply length_imap. }
  rewrite length_take, Hlen, Nat.min_l, Nat.sub_diag by done.
  apply app_nil_r.
Qed.

Lemma knn_length (ix : faiss.IndexFlatL2) (x : vector) (k : nat) :
  length (faiss.knn ix x k) = k.
Proof.
  unfold faiss.knn. rewrite length_app, length_replicate, length_take. lia.
Qed.

Lemma knn_hits (ix : faiss.IndexFlatL2) (x : vector) (k : nat) :
  Forall (knn_hit ix) (faiss.knn ix x k).
Proof.
  unfold faiss.knn. fold (scored ix x). apply Forall_app. split.
  - apply Forall_take. eapply Forall_impl; [apply sorted_scored_stored|].
    intros h [Hd Hi]. split; [done|lia].
  - apply Forall_replicate. split; simpl; [done|lia].
Qed.

Lemma knn_within_stored (ix : faiss.IndexFlatL2) (x : vector) (k : nat) :
  (k ≤ faiss.ntotal ix)%nat → Forall (stored_hit ix) (faiss.knn ix x k).
Proof.
  intros Hk. rewrite knn_within by done. apply Forall_take, sorted_scored_stored.
Qed.

Lemma knn_within_sorted (ix : faiss.IndexFlatL2) (x : vector) (k : nat) :
  (k ≤ faiss.ntotal ix)%nat → StronglySorted faiss.nearer (faiss.knn ix x k).
Proof.
  intros Hk. rewrite knn_within by done.
  pose proof (StronglySorted_merge_sort faiss.nearer (scored ix x)) as Hs.
  rewrite <- (take_drop k (merge_sort faiss.nearer (scored ix x))) in Hs.
  by apply StronglySorted_app_1_l in Hs.
Qed.

(** ** The result loop of [search] *)

Lemma py_getitem_elem {A} (l : list A) (i : Z) (x : A) :
  py_getitem l i = Ok x → x ∈ l.
Proof.
  unfold py_getitem. case_decide; [done|].
  destruct (l !! _) as [y|] eqn:Hy; [|done].
  intros [= <-]. by eapply list_elem_of_lookup_2.
Qed.

Lemma py_getitem_in_range {A} (l : list A) (i : Z) :
  - Z.of_nat (length l) ≤ i < Z.of_nat (length l) → ∃ x, py_getitem l i = Ok x.
Proof.
  intros Hi. unfold py_getitem.
  rewrite (decide_False (P := (_ < 0))) by (case_decide; lia).
  destruct (l !! _) as [y|] eqn:Hy; [by eexists|].
  apply lookup_ge_None in Hy. case_decide; lia.
Qed.

Lemma format_results_total (docs : list string) (i : nat) (hits : list (Q * Z)) :
  docs ≠ [] → Forall (λ h, -1 ≤ h.2) hits →
  ∃ rs, format_results docs i hits = Ok rs.
Proof.
  intros Hne Hhits. revert i.
  induction Hhits as [|[dist idx] hits Hidx _ IH]; intros i; simpl; [by eexists|].
  destruct (IH (S i)) as [rs Hrs]. rewrite Hrs.
  case_decide as Hlt; [|by eexists].
  destruct (py_getitem_in_range docs idx) as [doc ->]; [|by eexists].
  destruct docs; [done|]. simpl in *. lia.
Qed.

Lemma format_results_elem (docs : list string) (i : nat) (hits : list (Q * Z))
    (rs : list QueryResult) (r : QueryResult) :
  format_results docs i hits = Ok rs → r ∈ rs →
  ∃ h, h ∈ hits ∧ distance r = h.1 ∧ score r = py_round (similarity h.1) 4 ∧
       py_getitem docs h.2 = Ok (document r).
Proof.
  revert i rs. induction hits as [|[dist idx] hits IH]; intros i rs; simpl.
  { intros [= <-] Hr. by apply elem_of_nil in Hr. }
  case_decide as Hlt.
  - destruct (py_getitem docs idx) as [doc|] eqn:Hdoc; [|done]. simpl.
    destruct (format_results docs (S i) hits) as [rs'|] eqn:Hrs'; [|done]. simpl.
    intros [= <-] Hr. apply elem_of_cons in Hr as [->|Hr].
    + exists (dist, idx). split; [left|done].
    + destruct (IH _ _ Hrs' Hr) as (h & Hh & Hrest). exists h. split; [by right|done].
  - intros Hrs Hr. destruct (IH _ _ Hrs Hr) as (h & Hh & Hrest).
    exists h. split; [by right|done].
Qed.

Lemma format_results_stored (docs : list string) (i : nat) (hits : list (Q * Z)) :
  Forall (λ h, 0 ≤ h.2 < Z.of_nat (length docs)) hits →
  ∃ rs, format_results docs i hits = Ok rs ∧
        distance <$> rs = hits.*1 ∧
        score <$> rs = (λ h, py_round (similarity h.1) 4) <$> hits ∧
        rank <$> rs = seq (i + 1) (length hits).
Proof.
  intros Hhits. revert i.
  induction Hhits as [|[dist idx] hits Hidx _ IH]; intros i; simpl; [by eexists|].
  destruct (IH (S i)) as (rs & -> & Hd & Hs & Hr). simpl in Hidx.
  rewrite decide_True by lia.
  destruct (py_getitem_in_range docs idx) as [doc ->]; [lia|].
  eexists. split; [done|]. rewrite !fmap_cons, Hd, Hs, Hr. simpl.
  by replace (S i + 1)%nat with (S (i + 1)) by lia.
Qed.

(** ** [search] *)

Lemma array_unpack (vs : list vector) (a : np.ndarray) (n dx : nat) :
  np.array vs = Ok a → np.unpack_shape a = Ok (n, dx) →
  ∃ v vs', vs = v :: vs' ∧ np.rows a = vs ∧ length v = dx.
Proof.
  unfold np.array, np.unpack_shape. destruct vs as [|v vs]; [by intros [= <-]|].
  case_match; [|done]. intros [= <-]. simpl. intros [= _ <-]. by eexists _, _.
Qed.

(** The number of neighbours [search] asks the index for. *)
Lemma search_empty (encode : list string → result (list vector))
    (s : SimpleRAGStore) (q : string) (k : Z) :
  index s = None ∨ documents s = [] → search encode s q k = Ok [].
Proof.
  unfold search. intros [->| ->]; [done|]. by destruct (index s).
Qed.

(** [search] on a store that has an index and documents: what it
    returns is the result loop run on the neighbours of the first query
    vector, and what it raises is raised by the encoder, by the array
    construction or by the checks of the index. *)
Lemma search_outcome (encode : list string → result (list vector))
    (s : SimpleRAGStore) (ix : faiss.IndexFlatL2) (q : string) (k : Z) :
  index s = Some ix → documents s ≠ [] →
  match search encode s q k with
  | Ok rs =>
      ∃ v vs, encode [q] = Ok (v :: vs) ∧ length v = faiss.d ix ∧
              0 < Z.min k (Z.of_nat (length (documents s))) ∧
              format_results (documents s) 0
                (faiss.knn ix v (Z.to_nat (Z.min k (Z.of_nat (length (documents s))))))
                = Ok rs
  | Raise e =>
      encode [q] = Raise e ∨ e = AssertionError ∨ ∃ msg, e = ValueError msg
  end.
Proof.
  intros Hix Hdocs. unfold search. rewrite Hix.
  rewrite decide_False by (by destruct (documents s)).
  destruct (encode [q]) as [vs|e] eqn:Henc; simpl; [|by left].
  destruct (np.array vs) as [a|e] eqn:Harr; simpl.
  2:{ right. right. unfold np.array in Harr. destruct vs; [done|].
      case_match; [done|]. injection Harr as <-. by eexists. }
  unfold faiss.search.
  destruct (np.unpack_shape a) as [[n dx]|e] eqn:Hshape; simpl.
  2:{ right. right. unfold np.unpack_shape in Hshape.
      repeat case_match; simplify_eq; by eexists. }
  destruct (array_unpack _ _ _ _ Harr Hshape) as (v & vs' & -> & Hrows & Hv).
  case_decide as Hd; [|simpl; by auto]. case_decide as Hk; [|simpl; by auto]. simpl.
  rewrite Hrows. simpl. rewrite zip_fst_snd.
  destruct (format_results _ _ _) as [rs|e] eqn:Hfmt.
  - exists v, vs'. by rewrite Hv, Hd.
  - destruct (format_results_total (documents s) 0
                (faiss.knn ix v (Z.to_nat (Z.min k (Z.of_nat (length (documents s)))))))
      as [rs Hrs]; [done| |congruence].
    eapply Forall_impl; [apply knn_hits|]. by intros h [_ [? _]].
Qed.

(** What the guard of line 92 does secure: whatever the store and the
    encoder, every result [search] returns carries a document of the
    stored corpus, and [search] never fails on the lookup
    [self.documents[idx]]: an exception it raises is the encoder's own,
    or comes from the array construction or the argument checks of the
    index. *)
Lemma search_lookup_safe (encode : list string → result (list vector))
    (s : SimpleRAGStore) (q : string) (k : Z) :
  match search encode s q k with
  | Ok rs => ∀ r, r ∈ rs → document r ∈ documents s
  | Raise e => encode [q] = Raise e ∨ e = AssertionError ∨ ∃ msg, e = ValueError msg
  end.
Proof.
  destruct (index s) as [ix|] eqn:Hix.
  2:{ rewrite search_empty by auto. intros r Hr. by apply elem_of_nil in Hr. }
  destruct (decide (documents s = [])) as [Hnil|Hdocs].
  { rewrite search_empty by auto. intros r Hr. by apply elem_of_nil in Hr. }
  pose proof (search_outcome encode s ix q k Hix Hdocs) as Hout.
  destruct (search encode s q k) as [rs|e]; [|done].
  destruct Hout as (v & vs & _ & _ & _ & Hfmt). intros r Hr.
  destruct (format_results_elem _ _ _ _ _ Hfmt Hr) as (h & _ & _ & _ & Hdoc).
  by eapply py_getitem_elem.
Qed.


(** ** A store built from one batch *)

Lemma create_rag_store_built (encode : list string → result (list vector))
    (D : nat) (docs : list string) :
  well_behaved encode D → docs ≠ [] →
  ∃ vs, encode docs = Ok vs ∧ length vs = length docs ∧
        Forall (λ v, length v = D) vs ∧
        create_rag_store encode docs
          = Ok (mk_store docs vs (Some (faiss.mk_index D vs))).
Proof.
  intros Henc Hdocs. destruct (Henc docs) as (vs & Hvs & Hlen & Hdim).
  exists vs. split_and!; [done..|].
  unfold create_rag_store. rewrite bool_decide_false by done.
  rewrite add_documents_steps by done. cbv zeta. rewrite Hvs. simpl.
  assert (batch_dimension vs D) as Hbatch.
  { split; [|done]. intros ->. by destruct docs. }
  rewrite (array_uniform vs D Hbatch). simpl.
  rewrite (faiss_add_same_dim (faiss.new D) _ (length vs)) by done.
  done.
Qed.

Lemma well_behaved_query (encode : list string → result (list vector))
    (D : nat) (q : string) :
  well_behaved encode D → ∃ v, encode [q] = Ok [v] ∧ length v = D.
Proof.
  intros Henc. destruct (Henc [q]) as (vs & Hvs & Hlen & Hdim).
  destruct vs as [|v [|w vs]]; try done.
  exists v. split; [done|]. by apply Forall_inv in Hdim.
Qed.

(** [search] when the query embeds to one vector of the dimension of
    the index and a positive number of results is asked for. *)
Lemma search_steps (encode : list string → result (list vector))
    (s : SimpleRAGStore) (ix : faiss.IndexFlatL2) (q : string) (k : Z) (v : vector) :
  index s = Some ix → documents s ≠ [] →
  encode [q] = Ok [v] → length v = faiss.d ix → 0 < k →
  search encode s q k =
    format_results (documents s) 0
      (faiss.knn ix v (Z.to_nat (Z.min k (Z.of_nat (length (documents s)))))).
Proof.
  intros Hix Hdocs Henc Hv Hk. unfold search. rewrite Hix, Henc.
  rewrite decide_False by (by destruct (documents s)). simpl.
  unfold faiss.search. simpl. rewrite Nat.eqb_refl. simpl.
  rewrite decide_True by done.
  rewrite decide_True by (destruct (documents s); [done|simpl; lia]).
  simpl. by rewrite zip_fst_snd.
Qed.

Lemma StronglySorted_of_fmap {A B} (f : A → B) (R : relation B) (l : list A) :
  StronglySorted R (f <$> l) → StronglySorted (λ x y, R (f x) (f y)) l.
Proof.
  induction l as [|x l IH]; csimpl; [constructor|].
  intros Hs. apply StronglySorted_inv in Hs as [Hl Hx].
  constructor; [by apply IH|]. by rewrite Forall_fmap in Hx.
Qed.

Lemma hits_sorted_by_score (hits : list (Q * Z)) :
  Forall (λ h, 0 <= h.1)%Q hits → StronglySorted faiss.nearer hits →
  StronglySorted
    (λ a b, py_round (similarity b.1) 4 <= py_round (similarity a.1) 4)%Q hits.
Proof.
  intros Hpos Hs. induction Hs as [|h hits Hs IH Hh]; [constructor|].
  apply Forall_cons in Hpos as [Hh0 Hpos].
  constructor; [by apply IH|].
  eapply Forall_impl; [exact Hh|]. intros h' Hnear.
  by apply py_round_monotone, similarity_antitone.
Qed.

(** [search] on the store [create_rag_store] builds from a batch, with
    an encoder that keeps its contract. *)
Lemma search_built_store (encode : list string → result (list vector))
    (D : nat) (docs : list string) (vs : list vector) (q : string) (k : Z) :
  well_behaved encode D → docs ≠ [] → length vs = length docs → 1 ≤ k →
  ∃ rs, search encode (mk_store docs vs (Some (faiss.mk_index D vs))) q k = Ok rs ∧
        Z.of_nat (length rs) = Z.min k (Z.of_nat (length docs)) ∧
        rank <$> rs = seq 1 (length rs) ∧
        StronglySorted by_distance rs ∧ StronglySorted by_score rs.
Proof.
  intros Henc Hdocs Hlen Hk.
  destruct (well_behaved_query encode D q Henc) as (v & Hv & Hdim).
  rewrite (search_steps encode _ (faiss.mk_index D vs) q k v) by (done || lia).
  simpl. set (n := Z.to_nat (Z.min k (Z.of_nat (length docs)))).
  assert (n ≤ faiss.ntotal (faiss.mk_index D vs))%nat as Hn
    by (unfold faiss.ntotal; simpl; lia).
  pose proof (knn_within_stored (faiss.mk_index D vs) v n Hn) as Hstored.
  pose proof (knn_within_sorted (faiss.mk_index D vs) v n Hn) as Hsorted.
  pose proof (knn_length (faiss.mk_index D vs) v n) as Hcount.
  destruct (format_results_stored docs 0 (faiss.knn (faiss.mk_index D vs) v n))
    as (rs & -> & Hdist & Hscore & Hrank).
  { eapply Forall_impl; [exact Hstored|]. intros h [_ Hh].
    unfold faiss.ntotal in Hh. simpl in Hh. lia. }
  assert (length rs = n) as Hrs.
  { rewrite <- Hcount, <- (length_fmap distance rs), Hdist. apply length_fmap. }
  exists rs. split_and!.
  - done.
  - rewrite Hrs. unfold n. lia.
  - by rewrite Hrank, Hcount, Hrs.
  - apply (StronglySorted_of_fmap distance Qle). rewrite Hdist.
    by apply (StronglySorted_fmap fst faiss.nearer Qle).
  - apply (StronglySorted_of_fmap score (λ x y, y <= x)%Q). rewrite Hscore.
    apply (StronglySorted_fmap _
             (λ a b, py_round (similarity b.1) 4 <= py_round (similarity a.1) 4)%Q);
      [done|].
    apply hits_sorted_by_score; [|done].
    eapply Forall_impl; [exact Hstored|]. by intros h [? _].
Qed.

(** [search] on such a store when [top_k] is not positive: the index
    refuses the request, after the query has been embedded. *)
Lemma search_built_store_nonpositive (encode : list string → result (list vector))
    (D : nat) (docs : list string) (vs : list vector) (q : string) (k : Z) :
  well_behaved encode D → docs ≠ [] → k < 1 →
  search encode (mk_store docs vs (Some (faiss.mk_index D vs))) q k
    = Raise AssertionError.
Proof.
  intros Henc Hdocs Hk.
  destruct (well_behaved_query encode D q Henc) as (v & Hv & Hdim).
  unfold search. simpl. rewrite Hv.
  rewrite decide_False by (by destruct docs). simpl.
  unfold faiss.search. simpl. rewrite Nat.eqb_refl. simpl.
  rewrite decide_True by done. by rewrite decide_False by lia.
Qed.

(** ** [search_documents] *)

Lemma str_falsy_spec (s : string) : str_falsy s = true ↔ s = "".
Proof. by destruct s. Qed.

Lemma query_rejected_iff (q : string) :
  str_falsy q || str_falsy (strip q) = true ↔ blank q.
Proof.
  unfold blank. rewrite orb_true_iff, !str_falsy_spec.
  split; [|by right]. by intros [->|?].
Qed.

Lemma docs_rejected_iff (docs : list string) :
  bool_decide (docs = []) || bool_decide (length docs = 0%nat) = true ↔ docs = [].
Proof.
  rewrite orb_true_iff, !bool_decide_eq_true. split; [|by left].
  intros [?|?]; [done|]. by apply length_zero_iff_nil.
Qed.

Lemma search_documents_accepts (encode : list string → result (list vector))
    (q : string) (docs : list string) (k : Z) :
  ¬ blank q → docs ≠ [] →
  search_documents encode q docs k =
    rs ← semantic_search encode q docs k;
    Ok (mk_search_response q (length docs) (length rs) rs).
Proof.
  intros Hq Hdocs. unfold search_documents.
  rewrite <- query_rejected_iff in Hq. rewrite <- docs_rejected_iff in Hdocs.
  by rewrite (not_true_is_false _ Hq), (not_true_is_false _ Hdocs).
Qed.

Lemma length_encoder_well_behaved (scale : Z) : well_behaved (length_encoder scale) 1.
Proof.
  intros texts. eexists. split; [reflexivity|]. split; [apply length_map|].
  apply Forall_forall. intros v Hv. apply list_elem_of_In, in_map_iff in Hv.
  by destruct Hv as (t & <- & _).
Qed.

(** C3: for every document list that is not empty, every valid query
    (one that is not blank) and every [top_k] of at least 1,
    [search_documents], run with an encoder that keeps its contract,
    returns exactly min(top_k, number of documents) results, ranked
    1, 2, ..., by non-decreasing distance and non-increasing score; a
    [top_k] above the number of documents is no error; and [search] on
    the empty store returns the empty list. *)
Theorem search_documents_count_and_order (encode : list string → result (list vector))
    (D : nat) (q : string) (docs : list string) (k : Z) :
  well_behaved encode D → docs ≠ [] → ¬ blank q → 1 ≤ k →
  (∃ r, search_documents encode q docs k = Ok r ∧
        Z.of_nat (length (results r)) = Z.min k (Z.of_nat (length docs)) ∧
        returned_results r = length (results r) ∧
        total_documents r = length docs ∧
        rank <$> results r = seq 1 (length (results r)) ∧
        StronglySorted by_distance (results r) ∧
        StronglySorted by_score (results r)) ∧
  search encode new_store q k = Ok [].
Proof.
  intros Henc Hdocs Hq Hk. split; [|done].
  rewrite search_documents_accepts by done. unfold semantic_search.
  destruct (create_rag_store_built encode D docs Henc Hdocs)
    as (vs & _ & Hlen & _ & ->).
  destruct (search_built_store encode D docs vs q k Henc Hdocs Hlen Hk)
    as (rs & Hrun & Hcount & Hrank & Hd & Hs).
  simpl. rewrite Hrun. simpl. eexists. split; [reflexivity|]. by simpl.
Qed.

Lemma search_documents_count_and_order_witness :
  ∃ r, search_documents (length_encoder 1) "abc" ["a"; "abcd"; "abc"] 2 = Ok r ∧
       Z.of_nat (length (results r)) = 2 ∧
       StronglySorted by_distance (results r) ∧ StronglySorted by_score (results r).
Proof.
  destruct (search_documents_count_and_order (length_encoder 1) 1%nat "abc"
              ["a"; "abcd"; "abc"] 2) as [(r & Hrun & Hlen & _ & _ & _ & Hd & Hs) _].
  - apply length_encoder_well_behaved.
  - done.
  - unfold blank. vm_compute. discriminate.
  - lia.
  - exists r. split_and!; done.
Defined.

(** C4, as the specification states it, fails: with a valid query and
    one document, [top_k] = 0 raises no [ValueError]; the request is
    refused by the index, after every embedding has been computed. *)
Lemma top_k_is_not_validated :
  ¬ (∀ (encode : list string → result (list vector)) (D : nat) (q : string)
       (docs : list string) (k : Z),
       well_behaved encode D →
       (is_ValueError (search_documents encode q docs k) ↔
        blank q ∨ docs = [] ∨ k < 1)).
Proof.
  intros Hclaim.
  destruct (Hclaim (length_encoder 1) 1%nat "q" ["a"] 0
              (length_encoder_well_behaved 1)) as [_ Hinvalid].
  destruct Hinvalid as [msg Hmsg]; [right; right; lia|].
  discriminate Hmsg.
Qed.

(** C4, amended: [search_documents] raises its [ValueError] exactly
    when the query is blank or the document list is empty, and it does
    so whatever the encoder, hence before anything is computed; [top_k]
    is not validated: with a valid query and documents the encoder runs
    first, and a [top_k] below 1 is refused only by the index, with an
    [AssertionError]; [SimpleRAGStore.search] validates nothing: it
    returns the empty list on a store without index or documents, and
    on a store built from one batch it answers every query, a blank one
    too. *)
Theorem search_documents_validation :
  (∀ (encode : list string → result (list vector)) q docs k,
     blank q →
     search_documents encode q docs k = Raise (ValueError "Query cannot be empty")) ∧
  (∀ (encode : list string → result (list vector)) q docs k,
     ¬ blank q → docs = [] →
     search_documents encode q docs k
       = Raise (ValueError "Documents list cannot be empty")) ∧
  (∀ (encode : list string → result (list vector)) q docs k e,
     ¬ blank q → docs ≠ [] → encode docs = Raise e →
     search_documents encode q docs k = Raise e) ∧
  (∀ (encode : list string → result (list vector)) D q docs k,
     well_behaved encode D → ¬ blank q → docs ≠ [] →
     (1 ≤ k → is_Ok (search_documents encode q docs k)) ∧
     (k < 1 → search_documents encode q docs k = Raise AssertionError)) ∧
  (∀ (encode : list string → result (list vector)) s q k,
     index s = None ∨ documents s = [] → search encode s q k = Ok []) ∧
  (∀ (encode : list string → result (list vector)) D docs vs q k,
     well_behaved encode D → docs ≠ [] → length vs = length docs → 1 ≤ k →
     is_Ok (search encode (mk_store docs vs (Some (faiss.mk_index D vs))) q k)).
Proof.
  split_and!.
  - intros encode q docs k Hq. unfold search_documents.
    apply query_rejected_iff in Hq. by rewrite Hq.
  - intros encode q docs k Hq ->. unfold search_documents.
    rewrite <- query_rejected_iff in Hq. by rewrite (not_true_is_false _ Hq).
  - intros encode q docs k e Hq Hdocs Henc.
    rewrite search_documents_accepts by done.
    unfold semantic_search, create_rag_store.
    rewrite bool_decide_false by done.
    rewrite add_documents_steps by done. cbv zeta. by rewrite Henc.
  - intros encode D q docs k Henc Hq Hdocs.
    rewrite search_documents_accepts by done. unfold semantic_search.
    destruct (create_rag_store_built encode D docs Henc Hdocs)
      as (vs & _ & Hlen & _ & ->).
    simpl. split; intros Hk.
    + destruct (search_built_store encode D docs vs q k Henc Hdocs Hlen Hk)
        as (rs & -> & _). by eexists.
    + by rewrite (search_built_store_nonpositive encode D docs vs q k).
  - intros encode s q k. apply search_empty.
  - intros encode D docs vs q k Henc Hdocs Hlen Hk.
    destruct (search_built_store encode D docs vs q k Henc Hdocs Hlen Hk)
      as (rs & -> & _). by eexists.
Qed.

Lemma search_documents_validation_witness :
  search_documents failing_encoder " " ["a"] 0
    = Raise (ValueError "Query cannot be empty") ∧
  search_documents failing_encoder "q" [] 0
    = Raise (ValueError "Documents list cannot be empty") ∧
  search_documents failing_encoder "q" ["a"] 0
    = Raise (EncoderError "model unavailable") ∧
  search_documents (length_encoder 1) "q" ["a"] 0 = Raise AssertionError.
Proof.
  destruct search_documents_validation as (Hq & Hdocs & Henc & Hk & _ & _).
  split_and!.
  - apply Hq. reflexivity.
  - apply Hdocs; [|reflexivity]. unfold blank. vm_compute. discriminate.
  - apply Henc; [|done|reflexivity]. unfold blank. vm_compute. discriminate.
  - apply (Hk (length_encoder 1) 1%nat).
    + apply length_encoder_well_behaved.
    + unfold blank. vm_compute. discriminate.
    + done.
    + lia.
Defined.

(** ** [multi_query_search] *)

Lemma query_key_inj (i j : nat) : query_key i = query_key j → i = j.
Proof.
  unfold query_key. intros Hkey.
  apply (inj (String.app "query_")) in Hkey.
  apply (inj pretty) in Hkey. lia.
Qed.

Lemma run_queries_other (encode : list string → result (list vector))
    (st : SimpleRAGStore) (k : Z) (queries : list string) (idx : nat)
    (m : gmap string QueryEntry) (key : string) :
  (∀ j, (idx ≤ j)%nat → key ≠ query_key j) →
  run_queries encode st k idx queries m !! key = m !! key.
Proof.
  revert idx m. induction queries as [|q queries IH]; intros idx m Hkey; simpl; [done|].
  rewrite IH by (intros j Hj; apply Hkey; lia).
  apply lookup_insert_ne. apply not_eq_sym, Hkey. lia.
Qed.

Lemma run_queries_lookup (encode : list string → result (list vector))
    (st : SimpleRAGStore) (k : Z) (queries : list string) (idx : nat)
    (m : gmap string QueryEntry) (i : nat) (q : string) :
  queries !! i = Some q →
  run_queries encode st k idx queries m !! query_key (idx + i)
    = Some (query_entry encode st k q).
Proof.
  revert idx m i. induction queries as [|q' queries IH]; intros idx m i Hq; [done|].
  simpl. destruct i as [|i]; simpl in Hq.
  - injection Hq as ->. rewrite Nat.add_0_r.
    rewrite run_queries_other; [apply lookup_insert_eq|].
    intros j Hj Hkey. apply query_key_inj in Hkey. lia.
  - replace (idx + S i)%nat with (S idx + i)%nat by lia. by apply IH.
Qed.

(** C6, as the specification states it, fails: with an encoder that
    keeps its contract, the empty string is embedded like any other
    query, and its entry carries results and no error. *)
Lemma empty_query_is_not_an_error :
  ¬ (∀ (encode : list string → result (list vector)) (D : nat) (docs : list string),
       well_behaved encode D → docs ≠ [] →
       ∃ r en, multi_query_search encode ["machine learning"; ""] docs 3 = Ok r ∧
               batch_results r !! "query_2" = Some en ∧
               is_Some (entry_error en)).
Proof.
  intros Hclaim.
  destruct (Hclaim (length_encoder 1) 1%nat ["a"] (length_encoder_well_behaved 1))
    as (r & en & Hrun & Hen & Herr); [done|].
  pose (st := mk_store ["a"] [[1%Q]] (Some (faiss.mk_index 1 [[1%Q]]))).
  assert (r = mk_batch_response 2 1
                (run_queries (length_encoder 1) st 3 0 ["machine learning"; ""] ∅))
    as -> by (injection Hrun as <-; reflexivity).
  pose proof (run_queries_lookup (length_encoder 1) st 3 ["machine learning"; ""]
                0 ∅ 1 "" eq_refl) as Hlookup.
  pose proof (eq_trans (eq_sym Hen) Hlookup) as Hentry.
  injection Hentry as ->. by destruct Herr.
Qed.

(** C6, amended: once the store is built, [multi_query_search] with a
    query list that is not empty returns, with [total_queries] the
    number of queries, and the entry of each query is decided by that
    query alone: its results when [search] returned, and otherwise the
    message of the exception with an empty result list; a failing query
    stops no other.  The empty string is not a failure of its own:
    with an encoder that keeps its contract and [top_k] of at least 1
    every entry, also that of an empty query, carries no error. *)
Theorem multi_query_isolation :
  (∀ (encode : list string → result (list vector)) (queries docs : list string)
     (k : Z) (st : SimpleRAGStore),
     queries ≠ [] → docs ≠ [] → create_rag_store encode docs = Ok st →
     ∃ r, multi_query_search encode queries docs k = Ok r ∧
          total_queries r = length queries ∧
          ∀ i q, queries !! i = Some q →
            batch_results r !! query_key i =
              Some (match search encode st q k with
                    | Ok rs => mk_entry q None rs
                    | Raise e => mk_entry q (Some (exn_str e)) []
                    end)) ∧
  (∀ (encode : list string → result (list vector)) (D : nat)
     (queries docs : list string) (k : Z),
     well_behaved encode D → queries ≠ [] → docs ≠ [] → 1 ≤ k →
     ∃ r, multi_query_search encode queries docs k = Ok r ∧
          ∀ i q, queries !! i = Some q →
            ∃ en, batch_results r !! query_key i = Some en ∧
                  entry_query en = q ∧ entry_error en = None).
Proof.
  split.
  - intros encode queries docs k st Hq Hdocs Hst. unfold multi_query_search.
    rewrite !bool_decide_false by done. rewrite Hst. simpl.
    eexists. split; [reflexivity|]. split; [done|]. simpl.
    intros i q Hi. by apply (run_queries_lookup encode st k queries 0 ∅ i q).
  - intros encode D queries docs k Henc Hq Hdocs Hk. unfold multi_query_search.
    rewrite !bool_decide_false by done.
    destruct (create_rag_store_built encode D docs Henc Hdocs)
      as (vs & _ & Hlen & _ & ->).
    simpl. eexists. split; [reflexivity|]. simpl. intros i q Hi.
    rewrite (run_queries_lookup encode _ k queries 0 ∅ i q) by done.
    eexists. split; [reflexivity|]. unfold query_entry.
    by destruct (search_built_store encode D docs vs q k Henc Hdocs Hlen Hk)
      as (rs & -> & _).
Qed.

Lemma multi_query_isolation_witness :
  ∃ r, multi_query_search picky_encoder ["machine learning"; ""] ["a"] 3 = Ok r ∧
       total_queries r = 2%nat ∧
       batch_results r !! "query_1"
         = Some (mk_entry "machine learning" None
                   [mk_result 1 "a" (py_round (similarity 225) 4) 225]) ∧
       batch_results r !! "query_2" = Some (mk_entry "" (Some "empty text") []).
Proof.
  destruct (proj1 multi_query_isolation picky_encoder ["machine learning"; ""] ["a"] 3
              (mk_store ["a"] [[1%Q]] (Some (faiss.mk_index 1 [[1%Q]]))))
    as (r & Hrun & Htotal & Hentries); [done|done|reflexivity|].
  exists r. split_and!; [done|done|..].
  - apply (Hentries 0%nat "machine learning"). reflexivity.
  - apply (Hentries 1%nat ""). reflexivity.
Defined.

(** ** [find_similar_documents] *)

Lemma pointwise_well_behaved (encode : list string → result (list vector))
    (f : string → vector) (D : nat) :
  pointwise encode f D → well_behaved encode D.
Proof.
  intros [Henc Hdim] texts. exists (f <$> texts).
  split_and!; [done|apply length_fmap|].
  apply Forall_fmap, Forall_forall. intros t _. apply Hdim.
Qed.

Lemma str_prefix_split (n : nat) (s : string) :
  (n ≤ String.length s)%nat →
  String.length (str_prefix n s) = n ∧ ∃ rest, s = str_prefix n s +:+ rest.
Proof.
  unfold str_prefix. revert s. induction n as [|n IH]; intros s Hn.
  - destruct s; (split; [done|by eexists]).
  - destruct s as [|c s]; simpl in *; [lia|].
    destruct (IH s) as [Hlen [rest Hrest]]; [lia|].
    split; [by rewrite Hlen|]. exists rest.
    change (String c s = String c (String.substring 0 n s +:+ rest)).
    by f_equal.
Qed.

(** The nearest stored vector is at least as near as any stored one. *)
Lemma knn_head_nearest (ix : faiss.IndexFlatL2) (x y : vector) (i n : nat) :
  faiss.xb ix !! i = Some y → (1 ≤ n ≤ faiss.ntotal ix)%nat →
  ∃ h hits, faiss.knn ix x n = h :: hits ∧ (h.1 <= faiss.fvec_L2sqr x y)%Q.
Proof.
  intros Hy Hn. rewrite knn_within by lia.
  pose proof (elem_of_lookup_imap_2
                (λ i y, (faiss.fvec_L2sqr x y, Z.of_nat i)) _ _ _ Hy) as Hin.
  fold (scored ix x) in Hin.
  rewrite <- (merge_sort_Permutation faiss.nearer) in Hin.
  pose proof (StronglySorted_merge_sort faiss.nearer (scored ix x)) as Hs.
  destruct (merge_sort faiss.nearer (scored ix x)) as [|h hits]; [by apply elem_of_nil in Hin|].
  destruct n as [|n]; [lia|]. simpl. exists h, (take n hits). split; [done|].
  apply StronglySorted_inv in Hs as [_ Hh].
  apply elem_of_cons in Hin as [<-|Hin]; [simpl; lra|].
  rewrite Forall_forall in Hh. exact (Hh _ Hin).
Qed.

(** A query that is itself a document of the store comes back first,
    at distance 0 and with score 1. *)
Lemma search_built_store_self (encode : list string → result (list vector))
    (f : string → vector) (D : nat) (docs : list string) (q : string) (k : Z) :
  pointwise encode f D → q ∈ docs → 1 ≤ k →
  ∃ r rs, search encode (mk_store docs (f <$> docs)
                           (Some (faiss.mk_index D (f <$> docs)))) q k
            = Ok (r :: rs) ∧
          rank r = 1%nat ∧ (distance r == 0)%Q ∧ (score r == 1)%Q.
Proof.
  intros Hpw Hq Hk. pose proof Hpw as [Henc Hdim].
  assert (docs ≠ []) as Hdocs by (intros ->; by apply elem_of_nil in Hq).
  rewrite (search_steps encode _ (faiss.mk_index D (f <$> docs)) q k (f q));
    [|done|done|by rewrite Henc|apply Hdim|lia].
  simpl. set (n := Z.to_nat (Z.min k (Z.of_nat (length docs)))).
  assert (1 ≤ n ≤ faiss.ntotal (faiss.mk_index D (f <$> docs)))%nat as Hn.
  { unfold faiss.ntotal. simpl. rewrite length_fmap.
    destruct docs; [done|]. simpl in *. lia. }
  apply list_elem_of_lookup in Hq as [i Hi].
  destruct (knn_head_nearest (faiss.mk_index D (f <$> docs)) (f q) (f q) i n)
    as (h & hits & Hknn & Hnear); [by simpl; rewrite list_lookup_fmap, Hi|done|].
  pose proof (knn_within_stored (faiss.mk_index D (f <$> docs)) (f q) n
                (proj2 Hn)) as Hstored.
  destruct (format_results_stored docs 0
              (faiss.knn (faiss.mk_index D (f <$> docs)) (f q) n))
    as (rs & -> & Hdist & Hscore & Hrank).
  { eapply Forall_impl; [exact Hstored|]. intros h' [_ Hh'].
    unfold faiss.ntotal in Hh'. simpl in Hh'. rewrite length_fmap in Hh'. lia. }
  rewrite Hknn in Hdist, Hscore, Hrank, Hstored.
  destruct rs as [|r rs]; [done|]. exists r, rs.
  injection Hdist as Hd _. injection Hscore as Hsc _. injection Hrank as Hr _.
  apply Forall_inv in Hstored as [Hpos _].
  rewrite fvec_L2sqr_self in Hnear.
  split_and!; [done|done|rewrite Hd; lra|].
  rewrite Hsc. apply Qle_antisym.
  - assert (py_round (similarity 0) 4 == 1)%Q as <- by reflexivity.
    apply py_round_monotone, similarity_antitone; [lra|done].
  - assert (py_round (similarity 0) 4 == 1)%Q as <- by reflexivity.
    apply py_round_monotone, similarity_antitone; [done|lra].
Qed.

Lemma semantic_search_depends (encode encode' : list string → result (list vector))
    (q : string) (docs : list string) (k : Z) :
  encode docs = encode' docs → encode [q] = encode' [q] →
  semantic_search encode q docs k = semantic_search encode' q docs k.
Proof.
  intros Hdocs Hq. unfold semantic_search, create_rag_store.
  case_bool_decide as Hnil.
  - simpl. rewrite !search_empty; auto.
  - rewrite !add_documents_steps by done. cbv zeta. rewrite <- Hdocs.
    destruct (encode docs) as [vs|e]; [|done].
    destruct (np.array _) as [a|e]; [|done].
    destruct (np.shape_at a 1) as [dim|e]; [|done].
    destruct (faiss.add _ a) as [ix|e]; [|done].
    simpl. unfold search. simpl. by rewrite <- Hq.
Qed.

Lemma length_encoder_pointwise (scale : Z) :
  pointwise (length_encoder scale)
    (λ s, [inject_Z (scale * Z.of_nat (String.length s))]) 1.
Proof. split; [|done]. intros texts. reflexivity. Qed.

(** C8: [find_similar_documents] searches with the whole target text
    over the whole document list: its results are those of
    [semantic_search] on the target as it was given, they depend on the
    encoder only through the embeddings of the documents and of the full
    target, and a target that is itself a document comes back first at
    distance 0; only the echoed [target_document] is cut: it is the
    target when that has at most 200 characters, and its first 200
    characters followed by "..." otherwise. *)
Theorem find_similar_documents_preview :
  (∀ (encode : list string → result (list vector)) t docs k r,
     find_similar_documents encode t docs k = Ok r →
     semantic_search encode t docs k = Ok (similar_documents r) ∧
     corpus_size r = length docs ∧
     ((String.length t ≤ 200)%nat → target_document r = t) ∧
     ((200 < String.length t)%nat →
        target_document r = str_prefix 200 t +:+ "..." ∧
        String.length (str_prefix 200 t) = 200%nat ∧
        ∃ rest, t = str_prefix 200 t +:+ rest)) ∧
  (∀ (encode : list string → result (list vector)) t docs k rs,
     t ≠ "" → docs ≠ [] → semantic_search encode t docs k = Ok rs →
     is_Ok (find_similar_documents encode t docs k)) ∧
  (∀ (encode encode' : list string → result (list vector)) t docs k,
     encode docs = encode' docs → encode [t] = encode' [t] →
     find_similar_documents encode t docs k
       = find_similar_documents encode' t docs k) ∧
  (∀ (encode : list string → result (list vector)) f D t docs k,
     pointwise encode f D → t ∈ docs → t ≠ "" → 1 ≤ k →
     ∃ r hit rest, find_similar_documents encode t docs k = Ok r ∧
                   similar_documents r = hit :: rest ∧
                   rank hit = 1%nat ∧ (distance hit == 0)%Q ∧ (score hit == 1)%Q).
Proof.
  split_and!.
  - intros encode t docs k r. unfold find_similar_documents.
    case_match; [done|].
    destruct (semantic_search encode t docs k) as [rs|e]; [|done]. simpl.
    intros [= <-]. simpl. split_and!; [done|done|..].
    + intros Hshort. by rewrite decide_False by lia.
    + intros Hlong. rewrite decide_True by done. split; [done|].
      apply str_prefix_split. lia.
  - intros encode t docs k rs Ht Hdocs Hrs. unfold find_similar_documents.
    rewrite Hrs. destruct t; [done|]. simpl.
    rewrite bool_decide_false by done. by eexists.
  - intros encode encode' t docs k Hdocs Ht. unfold find_similar_documents.
    by rewrite (semantic_search_depends encode encode' t docs k Hdocs Ht).
  - intros encode f D t docs k Hpw Ht Hne Hk.
    assert (docs ≠ []) as Hdocs by (intros ->; by apply elem_of_nil in Ht).
    unfold find_similar_documents. destruct t as [|c t]; [done|].
    cbn [str_falsy orb]. rewrite bool_decide_false by done.
    unfold semantic_search.
    destruct (create_rag_store_built encode D docs
                (pointwise_well_behaved _ _ _ Hpw) Hdocs) as (vs & Hvs & _ & _ & ->).
    destruct Hpw as [Henc Hdim]. rewrite Henc in Hvs. injection Hvs as <-.
    destruct (search_built_store_self encode f D docs (String c t) k)
      as (hit & rest & Hrun & Hrank & Hdist & Hscore); [done..|].
    cbn [mbind result_bind]. rewrite Hrun.
    eexists _, hit, rest. split; [reflexivity|]. by simpl.
Qed.

Lemma find_similar_documents_preview_witness :
  ∃ r hit rest,
    find_similar_documents (length_encoder 1) "abc" ["a"; "abc"] 5 = Ok r ∧
    similar_documents r = hit :: rest ∧
    rank hit = 1%nat ∧ (distance hit == 0)%Q ∧ (score hit == 1)%Q.
Proof.
  destruct find_similar_documents_preview as (_ & _ & _ & Hself).
  apply (Hself (length_encoder 1)
           (λ s, [inject_Z (1 * Z.of_nat (String.length s))]) 1%nat).
  - apply length_encoder_pointwise.
  - right. left.
  - done.
  - lia.
Defined.

(** A target of 201 characters: the preview holds 200 of them and the
    three dots, and the results are those of the full text, the nearest
    document being the one of 201 characters. *)
Example find_similar_documents_long_target :
  let target := String.concat "" (replicate 201 "x") in
  ∃ r, find_similar_documents (length_encoder 1) target
         [String.concat "" (replicate 200 "x"); target] 1 = Ok r ∧
       target_document r = String.concat "" (replicate 200 "x") +:+ "..." ∧
       document <$> similar_documents r = [target] ∧
       corpus_size r = 2%nat.
Proof. cbv zeta. eexists. split; [vm_compute; reflexivity|]. by vm_compute. Qed.

(** ** Invariant I1 along the life of a store *)

Lemma new_store_I1 : I1 new_store.
Proof. by split. Qed.

Lemma clear_resets (s : SimpleRAGStore) : clear s = (Ok (), new_store).
Proof. reflexivity. Qed.

(** The first batch added to an empty store establishes I1. *)
Lemma first_add_I1 (encode : list string → result (list vector))
    (D : nat) (docs : list string) :
  well_behaved encode D → docs ≠ [] →
  ∃ s, add_documents encode docs new_store = (Ok (), s) ∧ I1 s ∧ documents s = docs.
Proof.
  intros Henc Hdocs.
  destruct (create_rag_store_built encode D docs Henc Hdocs)
    as (vs & _ & Hlen & _ & Hbuilt).
  unfold create_rag_store in Hbuilt. rewrite bool_decide_false in Hbuilt by done.
  destruct (add_documents encode docs new_store) as [[[]|e] s]; [|done].
  injection Hbuilt as ->. eexists. split; [done|]. split; [|done].
  unfold I1, index_size, faiss.ntotal. simpl. by rewrite Hlen.
Qed.

(** A successful [add_documents] on a store that already has an index
    appends to the index every embedding of the store, the old ones
    included: the index grows by the new size of the corpus. *)
Lemma later_add_index_size (encode : list string → result (list vector))
    (s s' : SimpleRAGStore) (ix : faiss.IndexFlatL2) (docs : list string) :
  docs ≠ [] → index s = Some ix →
  add_documents encode docs s = (Ok (), s') →
  index_size s' = (index_size s + length (embeddings s'))%nat.
Proof.
  intros Hdocs Hix. rewrite add_documents_steps by done. cbv zeta.
  destruct (encode docs) as [vs|e]; [|done].
  destruct (np.array _) as [a|e] eqn:Harr; [|done].
  destruct (np.shape_at a 1) as [dim|e] eqn:Hdim; [|done].
  destruct (array_Ok_shape _ _ _ Harr Hdim) as [_ Hrows].
  rewrite Hix. simpl. unfold faiss.add.
  destruct (np.unpack_shape a) as [[n dx]|e]; [|done]. simpl.
  case_decide; [|done]. intros [= <-].
  unfold index_size, faiss.ntotal. rewrite Hix. simpl.
  by rewrite length_app, Hrows.
Qed.

(** Hence no successful call on a store that already holds documents
    under I1 keeps I1. *)
Lemma later_add_breaks_I1 (encode : list string → result (list vector))
    (s s' : SimpleRAGStore) (ix : faiss.IndexFlatL2) (docs : list string) :
  I1 s → index s = Some ix → documents s ≠ [] → docs ≠ [] →
  add_documents encode docs s = (Ok (), s') → ¬ I1 s'.
Proof.
  intros [Hdocs Hemb] Hix Hne Hbatch Hrun [_ Hemb'].
  pose proof (later_add_index_size encode s s' ix docs Hbatch Hix Hrun) as Hgrow.
  destruct (documents s); [done|]. simpl in Hdocs. lia.
Qed.

(** The store two successful calls leave behind, under [search]: the
    index holds the vector of "a" at positions 0 and 1 and that of "bb"
    at position 2; the nearest neighbour of a query equal to "bb" is
    position 2, which is outside the corpus and dropped, and nothing is
    returned. *)
Example search_after_second_add :
  search (length_encoder 1)
    (mk_store ["a"; "bb"] [[1%Q]; [2%Q]]
       (Some (faiss.mk_index 1 [[1%Q]; [1%Q]; [2%Q]]))) "bb" 1
  = Ok [].
Proof. reflexivity. Qed.

(** C2 on the code: after two successful calls, of one document each,
    the corpus and the embeddings have two elements and the index has
    three, since the second call adds every stored embedding to the
    index again; I1 is broken. *)
Theorem second_add_breaks_I1 :
  let s := mk_store ["a"; "bb"] [[1%Q]; [2%Q]]
             (Some (faiss.mk_index 1 [[1%Q]; [1%Q]; [2%Q]])) in
  (add_documents (length_encoder 1) ["a"];; add_documents (length_encoder 1) ["bb"])
    new_store = (Ok (), s) ∧
  length (documents s) = 2%nat ∧ length (embeddings s) = 2%nat ∧
  index_size s = 3%nat ∧ ¬ I1 s.
Proof.
  cbv zeta. split; [reflexivity|]. repeat split; try reflexivity.
  intros [_ HI1]. discriminate HI1.
Qed.

(** * Further properties *)

(** ** The store over a sequence of calls *)

(** X1: whatever it returns or raises, [add_documents] only appends:
    the documents and the embeddings of the store before the call are a
    prefix of those after it, and an index that was there keeps its
    dimension and its vectors, in place, as a prefix of the new ones. *)
Theorem add_documents_appends_only (encode : list string → result (list vector))
    (s s' : SimpleRAGStore) (docs : list string) (r : result unit) :
  add_documents encode docs s = (r, s') →
  documents s `prefix_of` documents s' ∧
  embeddings s `prefix_of` embeddings s' ∧
  ∀ ix, index s = Some ix →
        ∃ ix', index s' = Some ix' ∧ faiss.d ix' = faiss.d ix ∧
               faiss.xb ix `prefix_of` faiss.xb ix'.
Proof.
  destruct (decide (docs = [])) as [->|Hne].
  { intros [= <- <-]. split_and!; [done|done|]. intros ix Hix. by exists ix. }
  rewrite add_documents_steps by done. cbv zeta.
  assert (∀ ix, index s = Some ix →
            ∃ ix', index s = Some ix' ∧ faiss.d ix' = faiss.d ix ∧
                   faiss.xb ix `prefix_of` faiss.xb ix') as Hsame
    by (intros ix Hix; by exists ix).
  destruct (encode docs) as [vs|e].
  2:{ intros [= <- <-]. simpl. split_and!; [by apply prefix_app_r|done..]. }
  destruct (np.array _) as [a|e] eqn:Harr.
  2:{ intros [= <- <-]. simpl. split_and!; [by apply prefix_app_r..|done]. }
  destruct (np.shape_at a 1) as [dim|e] eqn:Hdim.
  2:{ intros [= <- <-]. simpl. split_and!; [by apply prefix_app_r..|done]. }
  destruct (index s) as [ix|] eqn:Hix; simpl.
  - unfold faiss.add. destruct (np.unpack_shape a) as [[n dx]|e]; simpl.
    2:{ intros [= <- <-]. simpl. split_and!; [by apply prefix_app_r..|done]. }
    case_decide.
    2:{ intros [= <- <-]. simpl. split_and!; [by apply prefix_app_r..|done]. }
    intros [= <- <-]. simpl. split_and!; [by apply prefix_app_r..|].
    intros ix0 [= <-]. eexists. split_and!; [done|done|]. by apply prefix_app_r.
  - destruct (faiss.add _ a); intros [= <- <-]; simpl;
      (split_and!; [by apply prefix_app_r..|done]).
Qed.

Lemma add_documents_appends_only_witness :
  documents (mk_store ["a"] [[0%Q]] (Some (faiss.mk_index 1 [[0%Q]])))
    `prefix_of` documents (mk_store ["a"; "bb"] [[0%Q]; [0%Q; 0%Q]]
                             (Some (faiss.mk_index 1 [[0%Q]]))).
Proof.
  exact (proj1 (add_documents_appends_only ragged_encoder
                  (mk_store ["a"] [[0%Q]] (Some (faiss.mk_index 1 [[0%Q]])))
                  (mk_store ["a"; "bb"] [[0%Q]; [0%Q; 0%Q]]
                     (Some (faiss.mk_index 1 [[0%Q]])))
                  ["bb"]
                  (Raise (ValueError "setting an array element with a sequence."))
                  eq_refl)).
Defined.

Lemma Forall_dimension_batch (vs ws : list vector) (D : nat) :
  Forall (λ v, length v = D) vs → Forall (λ v, length v = D) ws → ws ≠ [] →
  batch_dimension (vs ++ ws) D.
Proof.
  intros Hvs Hws Hne. split; [|by apply Forall_app].
  intros Hnil. by apply app_eq_nil in Hnil as [_ ?].
Qed.

(** What one call of [add_documents] on a store in lockstep returns. *)
Lemma add_documents_lockstep_run (encode : list string → result (list vector))
    (D : nat) (s : SimpleRAGStore) (docs : list string) (vs : list vector) :
  store_inv D s → docs ≠ [] → encode docs = Ok vs → vs ≠ [] →
  Forall (λ v, length v = D) vs →
  add_documents encode docs s =
    (Ok (),
     mk_store (documents s ++ docs) (embeddings s ++ vs)
       (Some (faiss.mk_index D
                (from_option faiss.xb [] (index s) ++ embeddings s ++ vs)))).
Proof.
  intros (Hlock & Hdim & Hindex) Hdocs Hvs Hne Hvdim.
  rewrite add_documents_steps by done. cbv zeta. rewrite Hvs.
  rewrite (array_uniform _ D (Forall_dimension_batch _ _ _ Hdim Hvdim Hne)). simpl.
  destruct (index s) as [ix|]; simpl.
  - destruct Hindex as (Hd & _ & _).
    rewrite (faiss_add_same_dim ix _ (length (embeddings s ++ vs)))
      by (by rewrite Hd).
    simpl. by rewrite Hd.
  - by rewrite (faiss_add_same_dim (faiss.new D) _ (length (embeddings s ++ vs))).
Qed.

(** The store it leaves is in lockstep again. *)
Lemma store_inv_after_add (D : nat) (s : SimpleRAGStore) (docs : list string)
    (vs : list vector) :
  store_inv D s → length vs = length docs → vs ≠ [] →
  Forall (λ v, length v = D) vs →
  store_inv D
    (mk_store (documents s ++ docs) (embeddings s ++ vs)
       (Some (faiss.mk_index D
                (from_option faiss.xb [] (index s) ++ embeddings s ++ vs)))).
Proof.
  intros (Hlock & Hdim & Hindex) Hlen Hne Hvdim. split_and!; simpl.
  - rewrite !length_app. lia.
  - by apply Forall_app.
  - split_and!; [done| |].
    + intros Hnil. by apply app_eq_nil in Hnil as [_ ?].
    + unfold faiss.ntotal. simpl. rewrite !length_app. lia.
Qed.

(** X2: on a store in lockstep at dimension [D], with an encoder that
    keeps its contract, [add_documents] of a batch that is not empty
    returns; it appends the batch to the documents and its vectors to
    the embeddings, and appends every embedding of the store, old and
    new, to the index; the store is again in lockstep. *)
Theorem add_documents_in_lockstep (encode : list string → result (list vector))
    (D : nat) (s : SimpleRAGStore) (docs : list string) :
  well_behaved encode D → store_inv D s → docs ≠ [] →
  ∃ vs, encode docs = Ok vs ∧ length vs = length docs ∧
        add_documents encode docs s =
          (Ok (),
           mk_store (documents s ++ docs) (embeddings s ++ vs)
             (Some (faiss.mk_index D
                      (from_option faiss.xb [] (index s) ++ embeddings s ++ vs)))) ∧
        store_inv D
          (mk_store (documents s ++ docs) (embeddings s ++ vs)
             (Some (faiss.mk_index D
                      (from_option faiss.xb [] (index s) ++ embeddings s ++ vs)))).
Proof.
  intros Henc Hinv Hdocs.
  destruct (Henc docs) as (vs & Hvs & Hlen & Hvdim).
  assert (vs ≠ []) as Hne by (intros ->; by destruct docs).
  exists vs. split_and!; [done|done|..].
  - by apply (add_documents_lockstep_run encode D).
  - by apply store_inv_after_add.
Qed.

Lemma add_documents_in_lockstep_witness :
  add_documents (length_encoder 1) ["bb"]
    (mk_store ["a"] [[1%Q]] (Some (faiss.mk_index 1 [[1%Q]])))
  = (Ok (), mk_store ["a"; "bb"] [[1%Q]; [2%Q]]
              (Some (faiss.mk_index 1 [[1%Q]; [1%Q]; [2%Q]]))).
Proof.
  destruct (add_documents_in_lockstep (length_encoder 1) 1
              (mk_store ["a"] [[1%Q]] (Some (faiss.mk_index 1 [[1%Q]]))) ["bb"])
    as (vs & Hvs & _ & Hrun & _).
  - apply length_encoder_well_behaved.
  - split_and!; simpl; [done|by repeat constructor|].
    split_and!; [done|done|]. unfold faiss.ntotal. simpl. lia.
  - done.
  - injection Hvs as <-. exact Hrun.
Defined.

Lemma new_store_inv (D : nat) : store_inv D new_store.
Proof. by split_and!. Qed.

Lemma reachable_store_inv (encode : list string → result (list vector))
    (D : nat) (s : SimpleRAGStore) :
  well_behaved encode D → reachable encode s → store_inv D s.
Proof.
  intros Henc Hreach.
  induction Hreach as [|s docs r s' _ IH Hrun|s r s' _ _ Hrun].
  - apply new_store_inv.
  - destruct (decide (docs = [])) as [->|Hdocs].
    + by injection Hrun as _ <-.
    + destruct (Henc docs) as (vs & Hvs & Hlen & Hvdim).
      assert (vs ≠ []) as Hne by (intros ->; by destruct docs).
      rewrite (add_documents_lockstep_run encode D s docs vs) in Hrun by done.
      injection Hrun as _ <-. by apply store_inv_after_add.
  - injection Hrun as _ <-. apply new_store_inv.
Qed.

(** X3: with an encoder that keeps its contract, every store a client
    can reach is in lockstep at the dimension of the encoder, and no
    call of [add_documents] on it raises. *)
Theorem reachable_in_lockstep (encode : list string → result (list vector))
    (D : nat) (s : SimpleRAGStore) :
  well_behaved encode D → reachable encode s →
  store_inv D s ∧ ∀ docs, (add_documents encode docs s).1 = Ok ().
Proof.
  intros Henc Hreach.
  pose proof (reachable_store_inv encode D s Henc Hreach) as Hinv.
  split; [done|]. intros docs.
  destruct (decide (docs = [])) as [->|Hdocs]; [done|].
  destruct (Henc docs) as (vs & Hvs & Hlen & Hvdim).
  assert (vs ≠ []) as Hne by (intros ->; by destruct docs).
  by rewrite (add_documents_lockstep_run encode D s docs vs).
Qed.

Lemma reachable_in_lockstep_witness :
  store_inv 1 (mk_store ["a"; "bb"] [[1%Q]; [2%Q]]
                 (Some (faiss.mk_index 1 [[1%Q]; [1%Q]; [2%Q]]))).
Proof.
  apply (reachable_in_lockstep (length_encoder 1) 1).
  - apply length_encoder_well_behaved.
  - apply (reach_add _ (mk_store ["a"] [[1%Q]] (Some (faiss.mk_index 1 [[1%Q]])))
             ["bb"] (Ok ())); [|reflexivity].
    apply (reach_add _ new_store ["a"] (Ok ())); [apply reach_new|reflexivity].
Defined.

(** X4: [clear] makes any store, whatever a failed call left in it and
    whatever its dimension was, behave as a new one: the next
    [add_documents] does what it does on [SimpleRAGStore()], so with an
    encoder of dimension [D] it establishes I1 and dimension [D]. *)
Theorem clear_then_add (encode : list string → result (list vector))
    (D : nat) (s : SimpleRAGStore) (docs : list string) :
  well_behaved encode D → docs ≠ [] →
  (clear;; add_documents encode docs) s = add_documents encode docs new_store ∧
  ∃ s', (clear;; add_documents encode docs) s = (Ok (), s') ∧
        I1 s' ∧ documents s' = docs ∧ established_dimension s' D.
Proof.
  intros Henc Hdocs. split; [reflexivity|].
  change ((clear;; add_documents encode docs) s)
    with (add_documents encode docs new_store).
  destruct (Henc docs) as (vs & Hvs & Hlen & Hvdim).
  assert (vs ≠ []) as Hne by (intros ->; by destruct docs).
  rewrite (add_documents_lockstep_run encode D new_store docs vs)
    by (done || apply new_store_inv).
  eexists. split; [reflexivity|]. simpl.
  split_and!.
  - split; simpl; [done|]. by unfold index_size, faiss.ntotal.
  - done.
  - eexists. split_and!; done.
Qed.

Lemma clear_then_add_witness :
  (clear;; add_documents (length_encoder 1) ["abc"])
    (mk_store ["a"; "bb"] [[0%Q]; [0%Q; 0%Q]] (Some (faiss.mk_index 2 [[0%Q; 0%Q]])))
  = add_documents (length_encoder 1) ["abc"] new_store.
Proof.
  apply (clear_then_add (length_encoder 1) 1
           (mk_store ["a"; "bb"] [[0%Q]; [0%Q; 0%Q]]
              (Some (faiss.mk_index 2 [[0%Q; 0%Q]]))) ["abc"]).
  - apply length_encoder_well_behaved.
  - done.
Defined.

(** ** [search] on any store *)

Lemma format_results_ranks (docs : list string) (i : nat) (hits : list (Q * Z))
    (rs : list QueryResult) :
  format_results docs i hits = Ok rs →
  (length rs ≤ length hits)%nat ∧
  Forall (λ r, i < rank r ≤ i + length hits)%nat rs ∧
  StronglySorted (λ a b, rank a < rank b)%nat rs.
Proof.
  revert i rs. induction hits as [|[dist idx] hits IH]; intros i rs; simpl.
  { intros [= <-]. split_and!; [done|constructor..]. }
  assert (∀ rs', format_results docs (S i) hits = Ok rs' →
            (length rs' ≤ S (length hits))%nat ∧
            Forall (λ r, i < rank r ≤ i + S (length hits))%nat rs' ∧
            StronglySorted (λ a b, rank a < rank b)%nat rs') as Hskip.
  { intros rs' Hrs'. destruct (IH _ _ Hrs') as (Hlen & Hrank & Hsort).
    split_and!; [lia| |done]. eapply Forall_impl; [exact Hrank|]. simpl. lia. }
  case_decide; [|by apply Hskip].
  destruct (py_getitem docs idx) as [doc|]; [|done]. simpl.
  destruct (format_results docs (S i) hits) as [rs'|] eqn:Hrs'; [|done]. simpl.
  intros [= <-]. destruct (IH _ _ Hrs') as (Hlen & Hrank & Hsort).
  split_and!; simpl.
  - lia.
  - constructor; [simpl; lia|]. eapply Forall_impl; [exact Hrank|]. simpl. lia.
  - constructor; [done|]. eapply Forall_impl; [exact Hrank|]. simpl. lia.
Qed.

(** X5: whatever the store and the encoder, [search] returns at most
    min(top_k, number of documents) results; their ranks increase
    strictly along the list and lie between 1 and that bound. *)
Theorem search_at_most_top_k (encode : list string → result (list vector))
    (s : SimpleRAGStore) (q : string) (k : Z) (rs : list QueryResult) :
  search encode s q k = Ok rs →
  Z.of_nat (length rs) ≤ Z.max 0 (Z.min k (Z.of_nat (length (documents s)))) ∧
  Forall (λ r, 1 ≤ Z.of_nat (rank r) ≤ Z.min k (Z.of_nat (length (documents s)))) rs ∧
  StronglySorted (λ a b, rank a < rank b)%nat rs.
Proof.
  intros Hrun.
  destruct (index s) as [ix|] eqn:Hix.
  2:{ rewrite search_empty in Hrun by auto. injection Hrun as <-.
      split_and!; [simpl; lia|constructor..]. }
  destruct (decide (documents s = [])) as [Hnil|Hdocs].
  { rewrite search_empty in Hrun by auto. injection Hrun as <-.
    split_and!; [simpl; lia|constructor..]. }
  pose proof (search_outcome encode s ix q k Hix Hdocs) as Hout.
  rewrite Hrun in Hout. destruct Hout as (v & vs & _ & _ & Hk & Hfmt).
  destruct (format_results_ranks _ _ _ _ Hfmt) as (Hlen & Hrank & Hsort).
  rewrite knn_length in Hlen, Hrank.
  split_and!; [lia| |done].
  eapply Forall_impl; [exact Hrank|]. simpl. lia.
Qed.

Lemma search_at_most_top_k_witness :
  Z.of_nat (length [mk_result 1 "abc" (py_round (similarity 0) 4) 0;
                    mk_result 2 "a" (py_round (similarity 4) 4) 4])
    ≤ Z.max 0 (Z.min 5 (Z.of_nat (length ["a"; "abc"]))).
Proof.
  exact (proj1 (search_at_most_top_k (length_encoder 1)
                  (mk_store ["a"; "abc"] [[1%Q]; [3%Q]]
                     (Some (faiss.mk_index 1 [[1%Q]; [3%Q]]))) "abc" 5 _ eq_refl)).
Defined.

(** ** Rounding to four decimals *)

Lemma round_half_even_near (y : Q) :
  (-(1 # 2) <= inject_Z (round_half_even y) - y <= 1 # 2)%Q.
Proof.
  unfold round_half_even.
  pose proof (Qfloor_le y) as Hlo. pose proof (Qlt_floor y) as Hhi.
  rewrite inject_Z_plus in Hhi. change (inject_Z 1) with 1%Q in Hhi.
  destruct (Qcompare_spec (y - inject_Z (Qfloor y)) (1 # 2)) as [He|Hl|Hg].
  - destruct (Z.even (Qfloor y)); rewrite ?inject_Z_plus; change (inject_Z 1) with 1%Q in *; lra.
  - lra.
  - rewrite inject_Z_plus. change (inject_Z 1) with 1%Q in *. lra.
Qed.

Lemma round_half_even_tie (y : Q) :
  (inject_Z (round_half_even y) - y == 1 # 2 ∨
   y - inject_Z (round_half_even y) == 1 # 2)%Q →
  Z.even (round_half_even y) = true.
Proof.
  unfold round_half_even.
  pose proof (Qfloor_le y) as Hlo. pose proof (Qlt_floor y) as Hhi.
  rewrite inject_Z_plus in Hhi. change (inject_Z 1) with 1%Q in Hhi.
  destruct (Qcompare_spec (y - inject_Z (Qfloor y)) (1 # 2)) as [He|Hl|Hg].
  - destruct (Z.even (Qfloor y)) eqn:Heven; [done|]. intros _.
    rewrite Z.even_add, Heven. done.
  - intros [H|H]; lra.
  - rewrite inject_Z_plus. change (inject_Z 1) with 1%Q. intros [H|H]; lra.
Qed.

(** The integer nearest to [y], with the even one at a tie, is what
    [round_half_even] returns. *)
Lemma round_half_even_unique (y : Q) (m : Z) :
  (-(1 # 2) <= inject_Z m - y <= 1 # 2)%Q →
  ((inject_Z m - y == 1 # 2 ∨ y - inject_Z m == 1 # 2)%Q → Z.even m = true) →
  round_half_even y = m.
Proof.
  intros Hm Heven. pose proof (round_half_even_near y) as Hn.
  pose proof (round_half_even_tie y) as Htie.
  set (n := round_half_even y) in *.
  destruct (decide (n = m)) as [|Hne]; [done|]. exfalso.
  destruct (Z.lt_total n m) as [Hlt|[?|Hgt]]; [|done|].
  - assert (m ≤ n + 1) as Hle
      by (rewrite Zle_Qle, inject_Z_plus; change (inject_Z 1) with 1%Q; lra).
    assert (m = n + 1) as Hm' by lia.
    rewrite Hm', inject_Z_plus in Hm, Heven.
    change (inject_Z 1) with 1%Q in Hm, Heven.
    rewrite Z.even_add in Heven. rewrite Htie in Heven by lra.
    specialize (Heven ltac:(lra)). done.
  - assert (n ≤ m + 1) as Hle
      by (rewrite Zle_Qle, inject_Z_plus; change (inject_Z 1) with 1%Q; lra).
    assert (n = m + 1) as Hn' by lia.
    rewrite Hn', inject_Z_plus in Hn, Htie.
    change (inject_Z 1) with 1%Q in Hn, Htie.
    rewrite Z.even_add in Htie. rewrite Heven in Htie by lra.
    specialize (Htie ltac:(lra)). done.
Qed.

Lemma py_round_4 (x : Q) :
  (py_round x 4 == inject_Z (round_half_even (x * 10000)) / 10000)%Q.
Proof. reflexivity. Qed.

Lemma py_round_4_error (x : Q) :
  (-(1 # 20000) <= py_round x 4 - x <= 1 # 20000)%Q.
Proof.
  rewrite py_round_4. pose proof (round_half_even_near (x * 10000)) as Hn.
  set (n := inject_Z (round_half_even (x * 10000))) in *.
  assert (n / 10000 * 10000 == n)%Q as Hdiv by (field; done).
  lra.
Qed.

Lemma similarity_inverse (dist : Q) :
  (0 <= dist → similarity dist * (1 + dist) == 1)%Q.
Proof. intros Hd. unfold similarity. field. lra. Qed.

Lemma py_round_4_eq (x : Q) (m : Z) :
  (py_round x 4 == inject_Z m / 10000)%Q ↔ round_half_even (x * 10000) = m.
Proof.
  rewrite py_round_4. split; [|by intros ->].
  intros Heq. apply inject_Z_injective.
  assert (∀ c, c / 10000 * 10000 == c)%Q as Hdiv by (intros c; field; done).
  rewrite <- (Hdiv (inject_Z (round_half_even (x * 10000)))), Heq. apply Hdiv.
Qed.

Lemma score_zero_iff (dist : Q) :
  (0 <= dist)%Q → (py_round (similarity dist) 4 == 0)%Q ↔ (19999 <= dist)%Q.
Proof.
  intros Hd. pose proof (similarity_range dist Hd) as [Hpos Hle].
  pose proof (similarity_inverse dist Hd) as Hinv.
  assert (0 == inject_Z 0 / 10000)%Q as -> by reflexivity.
  rewrite py_round_4_eq. split.
  - intros Hzero. pose proof (round_half_even_near (similarity dist * 10000)) as Hn.
    rewrite Hzero in Hn. change (inject_Z 0) with 0%Q in Hn. nra.
  - intros Hfar. apply round_half_even_unique; [|done].
    change (inject_Z 0) with 0%Q. nra.
Qed.

Lemma score_one_iff (dist : Q) :
  (0 <= dist)%Q → (py_round (similarity dist) 4 == 1)%Q ↔ (dist <= 1 # 19999)%Q.
Proof.
  intros Hd. pose proof (similarity_range dist Hd) as [Hpos Hle].
  pose proof (similarity_inverse dist Hd) as Hinv.
  assert (1 == inject_Z 10000 / 10000)%Q as -> by reflexivity.
  rewrite py_round_4_eq. split.
  - intros Hone. pose proof (round_half_even_near (similarity dist * 10000)) as Hn.
    rewrite Hone in Hn. change (inject_Z 10000) with 10000%Q in Hn. nra.
  - intros Hnear. apply round_half_even_unique; [|done].
    change (inject_Z 10000) with 10000%Q. nra.
Qed.

(** The score and the distance of a result of [search]. *)
Lemma search_result_fields (encode : list string → result (list vector))
    (s : SimpleRAGStore) (q : string) (k : Z) (rs : list QueryResult)
    (r : QueryResult) :
  search encode s q k = Ok rs → r ∈ rs →
  score r = py_round (similarity (distance r)) 4 ∧ (0 <= distance r)%Q.
Proof.
  intros Hrun Hr.
  destruct (index s) as [ix|] eqn:Hix.
  2:{ rewrite search_empty in Hrun by auto. injection Hrun as <-.
      by apply elem_of_nil in Hr. }
  destruct (decide (documents s = [])) as [Hnil|Hdocs].
  { rewrite search_empty in Hrun by auto. injection Hrun as <-.
    by apply elem_of_nil in Hr. }
  pose proof (search_outcome encode s ix q k Hix Hdocs) as Hout.
  rewrite Hrun in Hout. destruct Hout as (v & vs & _ & _ & _ & Hfmt).
  destruct (format_results_elem _ _ _ _ _ Hfmt Hr) as (h & Hh & Hdist & Hscore & _).
  pose proof (knn_hits ix v (Z.to_nat (Z.min k (Z.of_nat (length (documents s))))))
    as Hhits.
  rewrite Forall_forall in Hhits. destruct (Hhits h Hh) as [Hnonneg _].
  by rewrite Hscore, Hdist.
Qed.

(** X6: the score of every result of [search] is within 0.00005 of the
    exact similarity 1/(1+distance) of that result. *)
Theorem search_score_accuracy (encode : list string → result (list vector))
    (s : SimpleRAGStore) (q : string) (k : Z) (rs : list QueryResult)
    (r : QueryResult) :
  search encode s q k = Ok rs → r ∈ rs →
  (-(1 # 20000) <= score r - similarity (distance r) <= 1 # 20000)%Q.
Proof.
  intros Hrun Hr.
  destruct (search_result_fields encode s q k rs r Hrun Hr) as [-> _].
  apply py_round_4_error.
Qed.

Lemma search_score_accuracy_witness :
  (-(1 # 20000) <= py_round (similarity 4) 4 - similarity 4 <= 1 # 20000)%Q.
Proof.
  apply (search_score_accuracy (length_encoder 1)
           (mk_store ["a"; "abc"] [[1%Q]; [3%Q]]
              (Some (faiss.mk_index 1 [[1%Q]; [3%Q]]))) "abc" 5
           [mk_result 1 "abc" (py_round (similarity 0) 4) 0;
            mk_result 2 "a" (py_round (similarity 4) 4) 4]
           (mk_result 2 "a" (py_round (similarity 4) 4) 4)).
  - reflexivity.
  - right. left.
Defined.

(** X7: where the rounding saturates: a result of [search] reports
    score 0.0 when its distance is above 19999 and a positive score when
    it is below; it reports score 1.0 when its distance is below 1/19999
    and a score below 1 when it is above, so that a score of 1.0 does
    not single out an exact match.  The two boundary distances, where
    the similarity is an exact tie between two decimals, are left
    open. *)
Theorem search_score_thresholds (encode : list string → result (list vector))
    (s : SimpleRAGStore) (q : string) (k : Z) (rs : list QueryResult)
    (r : QueryResult) :
  search encode s q k = Ok rs → r ∈ rs →
  ((19999 < distance r)%Q → (score r == 0)%Q) ∧
  ((distance r < 19999)%Q → (0 < score r)%Q) ∧
  ((distance r < 1 # 19999)%Q → (score r == 1)%Q) ∧
  ((1 # 19999 < distance r)%Q → (score r < 1)%Q).
Proof.
  intros Hrun Hr.
  destruct (search_result_fields encode s q k rs r Hrun Hr) as [-> Hd].
  pose proof (similarity_range _ Hd) as [Hpos Hle].
  destruct (py_round_unit_interval (similarity (distance r))) as [H0 H1]; [lra|].
  pose proof (score_zero_iff _ Hd) as Hzero. pose proof (score_one_iff _ Hd) as Hone.
  split_and!.
  - intros Hfar. apply Hzero. lra.
  - intros Hnear. apply Qnot_le_lt. intros Hle0.
    assert (py_round (similarity (distance r)) 4 == 0)%Q as Heq by lra.
    apply Hzero in Heq. lra.
  - intros Hnear. apply Hone. lra.
  - intros Hfar. apply Qnot_le_lt. intros Hge1.
    assert (py_round (similarity (distance r)) 4 == 1)%Q as Heq by lra.
    apply Hone in Heq. lra.
Qed.

Lemma search_score_thresholds_witness :
  (py_round (similarity 40000) 4 == 0)%Q.
Proof.
  apply (search_score_thresholds (length_encoder 200)
           (mk_store ["a"] [[200%Q]] (Some (faiss.mk_index 1 [[200%Q]]))) "" 1
           [mk_result 1 "a" (py_round (similarity 40000) 4) 40000]
           (mk_result 1 "a" (py_round (similarity 40000) 4) 40000)).
  - reflexivity.
  - left.
  - reflexivity.
Defined.

(** ** What [search_documents] returns *)



(** ** Which queries [search_documents] refuses *)

Lemma lstrip_empty_iff (s : string) : lstrip s = "" ↔ all_space s = true.
Proof.
  induction s as [|c s IH]; simpl; [done|].
  destruct (isspace c); simpl; [done|]. split; discriminate.
Qed.

Lemma all_space_lstrip (s : string) : all_space (lstrip s) = all_space s.
Proof.
  induction s as [|c s IH]; simpl; [done|].
  destruct (isspace c) eqn:Hc; simpl; by rewrite ?Hc.
Qed.

Lemma all_space_rev_app (s1 s2 : string) :
  all_space (String.rev_app s1 s2) = all_space s1 && all_space s2.
Proof.
  revert s2. induction s1 as [|c s1 IH]; intros s2; simpl; [done|].
  rewrite IH. simpl. destruct (isspace c), (all_space s1); done.
Qed.

Lemma rev_app_empty_iff (s1 s2 : string) :
  String.rev_app s1 s2 = "" ↔ s1 = "" ∧ s2 = "".
Proof.
  revert s2. induction s1 as [|c s1 IH]; intros s2; simpl.
  - split; [by intros ->|by intros [_ ->]].
  - rewrite IH. split; [by intros [_ ?]|by intros [? _]].
Qed.

Lemma blank_iff_all_space (q : string) : blank q ↔ all_space q = true.
Proof.
  unfold blank, strip, rstrip, String.rev.
  rewrite rev_app_empty_iff, lstrip_empty_iff, all_space_rev_app, all_space_lstrip.
  simpl. rewrite andb_true_r. split; [by intros [? _]|done].
Qed.

(** X11: with an encoder that keeps its contract, documents and
    [top_k] of at least 1, [search_documents] raises a [ValueError]
    exactly for the queries all of whose characters are white space,
    the empty query among them; every other query is answered. *)
Theorem search_documents_refuses_iff (encode : list string → result (list vector))
    (D : nat) (q : string) (docs : list string) (k : Z) :
  well_behaved encode D → docs ≠ [] → 1 ≤ k →
  (is_ValueError (search_documents encode q docs k) ↔ all_space q = true) ∧
  (is_Ok (search_documents encode q docs k) ↔ all_space q = false).
Proof.
  intros Henc Hdocs Hk. destruct (all_space q) eqn:Hspace.
  - apply blank_iff_all_space, query_rejected_iff in Hspace.
    unfold search_documents. rewrite Hspace. split.
    + split; [done|]. intros _. by eexists.
    + split; [by intros [? ?]|done].
  - assert (¬ blank q) as Hq by (rewrite blank_iff_all_space; congruence).
    rewrite search_documents_accepts by done. unfold semantic_search.
    destruct (create_rag_store_built encode D docs Henc Hdocs)
      as (vs & _ & Hlen & _ & ->).
    destruct (search_built_store encode D docs vs q k Henc Hdocs Hlen Hk)
      as (rs & Hrun & _).
    cbn [mbind result_bind]. rewrite Hrun. simpl. split.
    + split; [by intros [? ?]|done].
    + split; [done|]. intros _. by eexists.
Qed.

Lemma search_documents_refuses_iff_witness :
  is_ValueError (search_documents (length_encoder 1) "  " ["a"] 1) ∧
  is_Ok (search_documents (length_encoder 1) " a " ["a"] 1).
Proof.
  split.
  - apply (search_documents_refuses_iff (length_encoder 1) 1 "  " ["a"] 1);
      [apply length_encoder_well_behaved|done|lia|reflexivity].
  - apply (search_documents_refuses_iff (length_encoder 1) 1 " a " ["a"] 1);
      [apply length_encoder_well_behaved|done|lia|reflexivity].
Defined.

(** ** [build_knowledge_base] *)

(** X12: [build_knowledge_base] refuses the empty list before the
    encoder runs and passes on what the encoder raises; with an encoder
    that keeps its contract it returns a handle that reports success
    and the number of documents, whose store holds the documents in
    order, satisfies I1 at the dimension of the encoder, and answers
    every later [search] as [semantic_search] on the same documents
    would. *)
Theorem build_knowledge_base_handle :
  (∀ (encode : list string → result (list vector)),
     build_knowledge_base encode []
       = Raise (ValueError "Documents list cannot be empty")) ∧
  (∀ (encode : list string → result (list vector)) docs e,
     docs ≠ [] → encode docs = Raise e →
     build_knowledge_base encode docs = Raise e) ∧
  (∀ (encode : list string → result (list vector)) D docs,
     well_behaved encode D → docs ≠ [] →
     ∃ kb, build_knowledge_base encode docs = Ok kb ∧
           success kb = true ∧ document_count kb = length docs ∧
           documents (store kb) = docs ∧ I1 (store kb) ∧
           established_dimension (store kb) D ∧
           ∀ q k, search encode (store kb) q k = semantic_search encode q docs k).
Proof.
  split_and!.
  - done.
  - intros encode docs e Hdocs Henc. unfold build_knowledge_base, create_rag_store.
    rewrite !bool_decide_false by done.
    rewrite add_documents_steps by done. cbv zeta. by rewrite Henc.
  - intros encode D docs Henc Hdocs. unfold build_knowledge_base, semantic_search.
    rewrite bool_decide_false by done.
    destruct (create_rag_store_built encode D docs Henc Hdocs)
      as (vs & _ & Hlen & Hdim & ->).
    eexists. split; [reflexivity|]. simpl. split_and!; [done..| | |done].
    + split; simpl; [done|]. by unfold index_size, faiss.ntotal.
    + eexists. split_and!; [done|done| |done]. simpl.
      intros ->. by destruct docs.
Qed.

Lemma build_knowledge_base_handle_witness :
  ∃ kb, build_knowledge_base (length_encoder 1) ["a"; "abc"] = Ok kb ∧
        document_count kb = 2%nat ∧ I1 (store kb) ∧
        search (length_encoder 1) (store kb) "abc" 1
          = semantic_search (length_encoder 1) "abc" ["a"; "abc"] 1.
Proof.
  destruct (proj2 (proj2 build_knowledge_base_handle) (length_encoder 1) 1%nat
              ["a"; "abc"]) as (kb & Hrun & _ & Hcount & _ & HI1 & _ & Hsearch).
  - apply length_encoder_well_behaved.
  - done.
  - exists kb. split_and!; [done|done|done|apply Hsearch].
Defined.

(** ** The dictionary of [multi_query_search] *)

Lemma run_queries_dom (encode : list string → result (list vector))
    (st : SimpleRAGStore) (k : Z) (queries : list string) (idx : nat)
    (m : gmap string QueryEntry) :
  dom (run_queries encode st k idx queries m)
    = dom m ∪ list_to_set (query_key <$> seq idx (length queries)).
Proof.
  revert idx m. induction queries as [|q queries IH]; intros idx m; simpl.
  - by rewrite (right_id_L ∅ (∪)).
  - rewrite IH, dom_insert_L. csimpl.
    by rewrite (comm_L (∪) {[query_key idx]} (dom m)), (assoc_L (∪)).
Qed.

Lemma query_keys_NoDup (idx n : nat) : NoDup (query_key <$> seq idx n).
Proof.
  apply NoDup_fmap_2; [|apply NoDup_seq].
  intros i j. apply query_key_inj.
Qed.

(** X13: once the store is built, the dictionary [multi_query_search]
    returns has exactly one entry per query, under the keys query_1 to
    query_n and no other, also when a query occurs more than once or
    raises. *)
Theorem multi_query_search_keys (encode : list string → result (list vector))
    (queries docs : list string) (k : Z) (st : SimpleRAGStore) :
  queries ≠ [] → docs ≠ [] → create_rag_store encode docs = Ok st →
  ∃ r, multi_query_search encode queries docs k = Ok r ∧
       size (batch_results r) = length queries ∧
       dom (batch_results r)
         = list_to_set (query_key <$> seq 0 (length queries)) ∧
       ∀ key, is_Some (batch_results r !! key) ↔
              ∃ i, (i < length queries)%nat ∧ key = query_key i.
Proof.
  intros Hq Hdocs Hst. unfold multi_query_search.
  rewrite !bool_decide_false by done. rewrite Hst. simpl.
  eexists. split; [reflexivity|]. simpl.
  assert (dom (run_queries encode st k 0 queries ∅)
            = list_to_set (query_key <$> seq 0 (length queries))) as Hdom.
  { by rewrite run_queries_dom, dom_empty_L, (left_id_L ∅ (∪)). }
  split_and!.
  - rewrite <- size_dom, Hdom, size_list_to_set by apply query_keys_NoDup.
    by rewrite length_fmap, length_seq.
  - done.
  - intros key. rewrite <- elem_of_dom, Hdom, elem_of_list_to_set, list_elem_of_fmap.
    split.
    + intros (i & -> & Hi). apply elem_of_seq in Hi. exists i. split; [lia|done].
    + intros (i & Hi & ->). exists i. split; [done|]. apply elem_of_seq. lia.
Qed.

Lemma multi_query_search_keys_witness :
  ∃ r, multi_query_search picky_encoder ["x"; ""; "x"] ["a"] 3 = Ok r ∧
       size (batch_results r) = 3%nat.
Proof.
  destruct (multi_query_search_keys picky_encoder ["x"; ""; "x"] ["a"] 3
              (mk_store ["a"] [[1%Q]] (Some (faiss.mk_index 1 [[1%Q]]))))
    as (r & Hrun & Hsize & _); [done|done|reflexivity|].
  by exists r.
Defined.

(** X14: the isolation of [multi_query_search] covers the queries
    only: an empty list of queries or of documents is refused with a
    [ValueError] whatever the encoder, and when the encoder raises on
    the documents the whole call raises that exception and no entry is
    returned. *)
Theorem multi_query_search_batch_failure :
  (∀ (encode : list string → result (list vector)) queries docs k,
     queries = [] ∨ docs = [] →
     multi_query_search encode queries docs k
       = Raise (ValueError "Both queries and documents must be provided")) ∧
  (∀ (encode : list string → result (list vector)) queries docs k e,
     queries ≠ [] → docs ≠ [] → encode docs = Raise e →
     multi_query_search encode queries docs k = Raise e).
Proof.
  split.
  - intros encode queries docs k [-> | ->]; unfold multi_query_search; [done|].
    by destruct (bool_decide (queries = [])).
  - intros encode queries docs k e Hq Hdocs Henc.
    unfold multi_query_search, create_rag_store.
    rewrite !bool_decide_false by done. simpl.
    rewrite add_documents_steps by done. cbv zeta. by rewrite Henc.
Qed.

Lemma multi_query_search_batch_failure_witness :
  multi_query_search failing_encoder ["x"; "y"] ["a"] 3
    = Raise (EncoderError "model unavailable").
Proof.
  by apply (proj2 multi_query_search_batch_failure failing_encoder
              ["x"; "y"] ["a"] 3).
Defined.

Lemma semantic_search_Ok_inv (encode : list string → result (list vector))
    (q : string) (docs : list string) (k : Z) (rs : list QueryResult) :
  semantic_search encode q docs k = Ok rs →
  ∃ st, create_rag_store encode docs = Ok st ∧ search encode st q k = Ok rs.
Proof.
  unfold semantic_search. destruct (create_rag_store encode docs) as [st|e]; [|done].
  simpl. intros Hrun. by exists st.
Qed.

(** X15: whatever the encoder, a query that [search_documents] answers
    on its own gets the same results inside a batch: its entry in the
    dictionary of [multi_query_search] over the same documents and
    [top_k] carries no error and exactly those results. *)
Theorem multi_query_search_agrees (encode : list string → result (list vector))
    (queries docs : list string) (k : Z) (i : nat) (q : string)
    (one : SearchResponse) :
  queries !! i = Some q →
  search_documents encode q docs k = Ok one →
  ∃ r, multi_query_search encode queries docs k = Ok r ∧
       batch_results r !! query_key i = Some (mk_entry q None (results one)).
Proof.
  intros Hi Hone.
  assert (queries ≠ []) as Hq by (intros ->; done).
  unfold search_documents in Hone.
  destruct (str_falsy q || str_falsy (strip q)); [done|].
  destruct (bool_decide (docs = []) || bool_decide (length docs = 0%nat)) eqn:Hd;
    [done|].
  apply orb_false_iff in Hd as [Hdocs%bool_decide_eq_false _].
  destruct (semantic_search encode q docs k) as [rs|e] eqn:Hrs; [|done].
  simpl in Hone. injection Hone as <-. simpl.
  destruct (semantic_search_Ok_inv encode q docs k rs Hrs) as (st & Hst & Hrun).
  unfold multi_query_search. rewrite !bool_decide_false by done. rewrite Hst. simpl.
  eexists. split; [reflexivity|]. simpl.
  rewrite (run_queries_lookup encode st k queries 0 ∅ i q Hi).
  unfold query_entry. by rewrite Hrun.
Qed.

Lemma multi_query_search_agrees_witness :
  ∃ r, multi_query_search picky_encoder [""; "abc"] ["a"; "abc"] 1 = Ok r ∧
       batch_results r !! "query_2"
         = Some (mk_entry "abc" None [mk_result 1 "abc" (py_round (similarity 0) 4) 0]).
Proof.
  apply (multi_query_search_agrees picky_encoder [""; "abc"] ["a"; "abc"] 1 1 "abc"
           (mk_search_response "abc" 2 1
              [mk_result 1 "abc" (py_round (similarity 0) 4) 0])).
  - reflexivity.
  - reflexivity.
Defined.

(** ** [find_similar_documents] as a search *)

(** X16: [find_similar_documents] refuses only the empty target and the
    empty document list, whatever the encoder; unlike
    [search_documents] it accepts a target of white space only; and it
    does not validate [top_k]: with an encoder that keeps its contract
    a [top_k] below 1 is refused by the index, with an
    [AssertionError]. *)
Theorem find_similar_documents_validation :
  (∀ (encode : list string → result (list vector)) t docs k,
     t = "" ∨ docs = [] →
     find_similar_documents encode t docs k
       = Raise (ValueError "Target document and documents list must be provided")) ∧
  (∀ (encode : list string → result (list vector)) D t docs k,
     well_behaved encode D → t ≠ "" → docs ≠ [] →
     (1 ≤ k → is_Ok (find_similar_documents encode t docs k)) ∧
     (k < 1 → find_similar_documents encode t docs k = Raise AssertionError)) ∧
  (∀ (encode : list string → result (list vector)) D t docs k,
     well_behaved encode D → blank t → t ≠ "" → docs ≠ [] → 1 ≤ k →
     is_Ok (find_similar_documents encode t docs k) ∧
     is_ValueError (search_documents encode t docs k)).
Proof.
  assert (∀ (encode : list string → result (list vector)) D t docs k,
            well_behaved encode D → t ≠ "" → docs ≠ [] →
            (1 ≤ k → is_Ok (find_similar_documents encode t docs k)) ∧
            (k < 1 → find_similar_documents encode t docs k = Raise AssertionError))
    as Hvalid.
  { intros encode D t docs k Henc Ht Hdocs. unfold find_similar_documents.
    destruct t as [|c t]; [done|]. cbn [str_falsy orb].
    rewrite bool_decide_false by done. unfold semantic_search.
    destruct (create_rag_store_built encode D docs Henc Hdocs)
      as (vs & _ & Hlen & _ & ->).
    cbn [mbind result_bind]. split; intros Hk.
    - destruct (search_built_store encode D docs vs (String c t) k
                  Henc Hdocs Hlen Hk) as (rs & -> & _).
      by eexists.
    - by rewrite (search_built_store_nonpositive encode D docs vs (String c t) k). }
  split_and!.
  - intros encode t docs k [-> | ->]; unfold find_similar_documents; [done|].
    by destruct (str_falsy t).
  - exact Hvalid.
  - intros encode D t docs k Henc Hblank Ht Hdocs Hk. split.
    + by apply (Hvalid encode D t docs k).
    + unfold search_documents. apply query_rejected_iff in Hblank.
      rewrite Hblank. by eexists.
Qed.

Lemma find_similar_documents_validation_witness :
  is_Ok (find_similar_documents (length_encoder 1) " " ["a"] 5) ∧
  is_ValueError (search_documents (length_encoder 1) " " ["a"] 5).
Proof.
  apply (proj2 (proj2 find_similar_documents_validation) (length_encoder 1) 1%nat).
  - apply length_encoder_well_behaved.
  - reflexivity.
  - done.
  - done.
  - lia.
Defined.

(** X17: with an encoder that keeps its contract, a target and a
    document list that are not empty and [top_k] of at least 1,
    [find_similar_documents] returns exactly min(top_k, number of
    documents) similar documents, ranked 1, 2, ..., by non-decreasing
    distance and non-increasing score, together with the number of
    documents as [corpus_size]. *)
Theorem find_similar_documents_ranked (encode : list string → result (list vector))
    (D : nat) (t : string) (docs : list string) (k : Z) :
  well_behaved encode D → t ≠ "" → docs ≠ [] → 1 ≤ k →
  ∃ r, find_similar_documents encode t docs k = Ok r ∧
       corpus_size r = length docs ∧
       Z.of_nat (length (similar_documents r)) = Z.min k (Z.of_nat (length docs)) ∧
       rank <$> similar_documents r = seq 1 (length (similar_documents r)) ∧
       StronglySorted by_distance (similar_documents r) ∧
       StronglySorted by_score (similar_documents r).
Proof.
  intros Henc Ht Hdocs Hk. unfold find_similar_documents.
  destruct t as [|c t]; [done|]. cbn [str_falsy orb].
  rewrite bool_decide_false by done. unfold semantic_search.
  destruct (create_rag_store_built encode D docs Henc Hdocs)
    as (vs & _ & Hlen & _ & ->).
  destruct (search_built_store encode D docs vs (String c t) k Henc Hdocs Hlen Hk)
    as (rs & Hrun & Hcount & Hrank & Hd & Hs).
  cbn [mbind result_bind]. rewrite Hrun.
  eexists. split; [reflexivity|]. by simpl.
Qed.

Lemma find_similar_documents_ranked_witness :
  ∃ r, find_similar_documents (length_encoder 1) "abc" ["a"; "abcd"; "abc"] 5 = Ok r ∧
       corpus_size r = 3%nat ∧ Z.of_nat (length (similar_documents r)) = 3.
Proof.
  destruct (find_similar_documents_ranked (length_encoder 1) 1 "abc"
              ["a"; "abcd"; "abc"] 5) as (r & Hrun & Hsize & Hcount & _).
  - apply length_encoder_well_behaved.
  - done.
  - done.
  - lia.
  - by exists r.
Defined.

(** ** [search] on the stores a client can reach *)

(** X18: with an encoder that keeps its contract, [search] with
    [top_k] of at least 1 raises on no store a client can reach, also
    after calls of [add_documents] have put vectors into the index more
    than once. *)
Theorem search_reachable_returns (encode : list string → result (list vector))
    (D : nat) (s : SimpleRAGStore) (q : string) (k : Z) :
  well_behaved encode D → reachable encode s → 1 ≤ k →
  is_Ok (search encode s q k).
Proof.
  intros Henc Hreach Hk.
  destruct (reachable_store_inv encode D s Henc Hreach) as (Hlock & Hdim & Hindex).
  destruct (index s) as [ix|] eqn:Hix.
  2:{ rewrite search_empty by auto. by eexists. }
  destruct Hindex as (Hd & Hne & _).
  assert (documents s ≠ []) as Hdocs.
  { intros Hnil. rewrite Hnil in Hlock. by destruct (embeddings s). }
  destruct (well_behaved_query encode D q Henc) as (v & Hv & Hvdim).
  rewrite (search_steps encode s ix q k v) by (done || lia).
  apply format_results_total; [done|].
  eapply Forall_impl; [apply knn_hits|]. by intros h [_ [? _]].
Qed.

Lemma search_reachable_returns_witness :
  is_Ok (search (length_encoder 1)
           (mk_store ["a"; "bb"] [[1%Q]; [2%Q]]
              (Some (faiss.mk_index 1 [[1%Q]; [1%Q]; [2%Q]]))) "bb" 1).
Proof.
  apply (search_reachable_returns (length_encoder 1) 1).
  - apply length_encoder_well_behaved.
  - apply (reach_add _ (mk_store ["a"] [[1%Q]] (Some (faiss.mk_index 1 [[1%Q]])))
             ["bb"] (Ok ())); [|reflexivity].
    apply (reach_add _ new_store ["a"] (Ok ())); [apply reach_new|reflexivity].
  - lia.
Defined.

(** ** [search] after a failed [add_documents] *)

Lemma format_results_app (docs : list string) (i : nat) (hits1 hits2 : list (Q * Z)) :
  format_results docs i (hits1 ++ hits2) =
    rs1 ← format_results docs i hits1;
    rs2 ← format_results docs (i + length hits1) hits2;
    Ok (rs1 ++ rs2).
Proof.
  revert i. induction hits1 as [|[dist idx] hits1 IH]; intros i; simpl.
  - rewrite Nat.add_0_r. by destruct (format_results docs i hits2).
  - rewrite IH. replace (S i + length hits1)%nat with (i + S (length hits1))%nat by lia.
    case_decide; [|done].
    destruct (py_getitem docs idx); [|done]. simpl.
    destruct (format_results docs (S i) hits1); [|done]. simpl.
    by destruct (format_results docs (i + S (length hits1)) hits2).
Qed.

Lemma py_getitem_last (docs : list string) :
  docs ≠ [] → ∃ doc, last docs = Some doc ∧ py_getitem docs (-1) = Ok doc.
Proof.
  intros Hdocs. unfold py_getitem. rewrite (decide_True (P := -1 < 0)) by lia.
  rewrite decide_False by (destruct docs; [done|simpl; lia]).
  rewrite last_lookup.
  replace (Z.to_nat (Z.of_nat (length docs) + -1)) with (pred (length docs)) by lia.
  destruct (docs !! pred (length docs)) as [doc|] eqn:Hdoc; [by exists doc|].
  apply lookup_ge_None in Hdoc. destruct docs; [done|simpl in Hdoc; lia].
Qed.

Lemma format_results_filler (docs : list string) (i m : nat) :
  docs ≠ [] →
  ∃ fill, format_results docs i (replicate m (faiss.FLT_MAX, -1)) = Ok fill ∧
          length fill = m ∧ Forall (filler_result docs) fill.
Proof.
  intros Hdocs. destruct (py_getitem_last docs Hdocs) as (doc & Hlast & Hget).
  revert i. induction m as [|m IH]; intros i; simpl.
  { exists []. by split_and!. }
  rewrite decide_True by lia. rewrite Hget. simpl.
  destruct (IH (S i)) as (fill & -> & Hlen & Hfill). simpl.
  eexists. split; [done|]. split; [by rewrite <- Hlen|].
  constructor; [|done]. split_and!; [done|done|]. simpl. reflexivity.
Qed.

(** X19: on a store whose index holds fewer vectors than there are
    documents, as a failed [add_documents] leaves it, a [search] that
    asks for more neighbours than the index holds returns, after one
    result per stored vector, results made from the filler of the
    index: each names the last document of the store, at the distance
    [FLT_MAX] and with score 0. *)
Theorem search_returns_filler (encode : list string → result (list vector))
    (s : SimpleRAGStore) (ix : faiss.IndexFlatL2) (q : string) (k : Z) (v : vector) :
  index s = Some ix →
  (faiss.ntotal ix < length (documents s))%nat →
  encode [q] = Ok [v] → length v = faiss.d ix →
  Z.of_nat (faiss.ntotal ix) < k →
  ∃ found fill,
    search encode s q k = Ok (found ++ fill) ∧
    length found = faiss.ntotal ix ∧
    Z.of_nat (length (found ++ fill)) = Z.min k (Z.of_nat (length (documents s))) ∧
    Forall (filler_result (documents s)) fill.
Proof.
  intros Hix Hshort Henc Hv Hk.
  assert (documents s ≠ []) as Hdocs by (destruct (documents s); [simpl in *; lia|done]).
  rewrite (search_steps encode s ix q k v) by (done || lia).
  set (n := Z.to_nat (Z.min k (Z.of_nat (length (documents s))))).
  assert (faiss.ntotal ix < n)%nat as Hn by lia.
  unfold faiss.knn. fold (scored ix v).
  assert (length (merge_sort faiss.nearer (scored ix v)) = faiss.ntotal ix) as Hlen.
  { rewrite merge_sort_Permutation. apply length_imap. }
  rewrite take_ge by lia. rewrite Hlen, format_results_app, Hlen.
  destruct (format_results_stored (documents s) 0 (merge_sort faiss.nearer (scored ix v)))
    as (found & -> & Hdist & _).
  { eapply Forall_impl; [apply sorted_scored_stored|]. intros h [_ Hh]. lia. }
  destruct (format_results_filler (documents s) (0 + faiss.ntotal ix)
              (n - faiss.ntotal ix) Hdocs) as (fill & -> & Hfill_len & Hfill).
  simpl. exists found, fill.
  assert (length found = faiss.ntotal ix) as Hfound.
  { rewrite <- Hlen, <- (length_fmap distance found), Hdist. apply length_fmap. }
  split_and!; [done|done| |done].
  rewrite length_app, Hfound, Hfill_len. lia.
Qed.

Lemma search_returns_filler_witness :
  ∃ found fill,
    search picky_encoder
      (mk_store ["a"; ""; "c"] [[1%Q]] (Some (faiss.mk_index 1 [[1%Q]]))) "x" 3
      = Ok (found ++ fill) ∧
    length found = 1%nat ∧
    Z.of_nat (length (found ++ fill)) = 3 ∧
    Forall (filler_result ["a"; ""; "c"]) fill.
Proof.
  apply (search_returns_filler picky_encoder
           (mk_store ["a"; ""; "c"] [[1%Q]] (Some (faiss.mk_index 1 [[1%Q]])))
           (faiss.mk_index 1 [[1%Q]]) "x" 3 [1%Q]).
  - reflexivity.
  - unfold faiss.ntotal. simpl. lia.
  - reflexivity.
  - reflexivity.
  - unfold faiss.ntotal. simpl. lia.
Defined.

(** * The score and the guard of [search], on the code *)



(** C10 on the code: a first batch is added, a second one raises in the
    encoder after the documents were extended, and [search] asks for
    three neighbours of an index that holds one vector.  The index
    answers with the labels 0, -1, -1; the guard [idx < len(documents)]
    lets -1 through, and the results at ranks 2 and 3 are made from
    [documents[-1]], a document the index never held, instead of being
    dropped. *)
Theorem search_keeps_filler_label :
  let s := mk_store ["a"; ""; "c"] [[1%Q]] (Some (faiss.mk_index 1 [[1%Q]])) in
  (add_documents picky_encoder ["a"];; add_documents picky_encoder [""; "c"]) new_store
    = (Raise (EncoderError "empty text"), s) ∧
  faiss.search (faiss.mk_index 1 [[1%Q]]) (np.mk_ndarray [1; 1]%nat [[1%Q]]) 3
    = Ok ([[0%Q; faiss.FLT_MAX; faiss.FLT_MAX]], [[0; -1; -1]]) ∧
  search picky_encoder s "x" 3
    = Ok [mk_result 1 "a" (py_round (similarity 0) 4) 0;
          mk_result 2 "c" (py_round (similarity faiss.FLT_MAX) 4) faiss.FLT_MAX;
          mk_result 3 "c" (py_round (similarity faiss.FLT_MAX) 4) faiss.FLT_MAX] ∧
  py_getitem ["a"; ""; "c"] (-1) = Ok "c".
Proof. cbv zeta. split_and!; reflexivity. Qed.
